(** * win-secrets: the SOPS secrets filesystem (main.go, sops client)

    A shallow embedding of the serving layer of win-secrets: the path
    derivation [parseSopsKeyPath], the secret tree walk [navigateToPath],
    the decrypted-value cache inside [readSecret] with its background
    sweep [cacheCleanupLoop], and the FUSE callbacks [Getattr], [Open],
    [Read], [Readdir], [Opendir], [Release], [Releasedir].

    Go strings are byte sequences and are modelled by [string] (a list of
    8-bit [ascii]); Go maps by [gmap]; [time.Time] by an integer number of
    nanoseconds and [time.Duration] by a saturating 64-bit integer.  The
    mutable [SopsFS] object, the calls made to the decryption collaborator
    and the log are threaded through a small state monad. *)

From Stdlib Require Import ZArith Lia Ascii String.
From stdpp Require Import gmap strings list fin_maps pretty.

Set Warnings "-register-all".
Local Open Scope string_scope.

(* ===================================================================== *)
(** ** Package [strings]: the functions main.go uses                      *)
(* ===================================================================== *)

Module strings.

(** Go slicing [s[n:]] and [s[:n]] for [0 <= n <= len(s)]. *)
Fixpoint sliceFrom (n : nat) (s : string) : string :=
  match n, s with
  | O, _ => s
  | S n', String _ s' => sliceFrom n' s'
  | S _, EmptyString => EmptyString
  end.

Fixpoint sliceTo (n : nat) (s : string) : string :=
  match n, s with
  | O, _ => EmptyString
  | S n', String c s' => String c (sliceTo n' s')
  | S _, EmptyString => EmptyString
  end.

(** [HasPrefix]: [len(s) >= len(prefix) && s[:len(prefix)] == prefix]. *)
Definition HasPrefix (s prefix : string) : bool :=
  (String.length prefix <=? String.length s)%nat
  && String.eqb (sliceTo (String.length prefix) s) prefix.

(** [HasSuffix]: [len(s) >= len(suffix) && s[len(s)-len(suffix):] == suffix]. *)
Definition HasSuffix (s suffix : string) : bool :=
  (String.length suffix <=? String.length s)%nat
  && String.eqb (sliceFrom (String.length s - String.length suffix) s) suffix.

(** [TrimPrefix] returns [s] without the leading [prefix]; [s] itself
    when it does not start with [prefix]. *)
Definition TrimPrefix (s prefix : string) : string :=
  if HasPrefix s prefix then sliceFrom (String.length prefix) s else s.

(** [TrimSuffix] returns [s] without the trailing [suffix]; [s] itself
    when it does not end with [suffix]. *)
Definition TrimSuffix (s suffix : string) : string :=
  if HasSuffix s suffix
  then sliceTo (String.length s - String.length suffix) s
  else s.

(** [Split s sep] for a one-byte separator, the only way main.go calls
    it: the substrings between the occurrences of [sep], in order.  The
    result always has [1 + (number of occurrences)] elements, so the
    empty string splits into one empty substring. *)
Fixpoint Split (s : string) (sep : ascii) : list string :=
  match s with
  | EmptyString => [EmptyString]
  | String c s' =>
      if Ascii.eqb c sep then EmptyString :: Split s' sep
      else match Split s' sep with
           | w :: ws => String c w :: ws
           | [] => [String c EmptyString]
           end
  end.

End strings.

(* ===================================================================== *)
(** ** Path derivation                                                    *)
(* ===================================================================== *)

Definition slash : ascii := "/"%char.

(** The first statement of [parseSopsKeyPath]:
    [parts := strings.Split(strings.TrimPrefix(filePath, "/"), "/")]. *)
Definition pathParts (filePath : string) : list string :=
  strings.Split (strings.TrimPrefix filePath "/") slash.

(** The body of the loop of [parseSopsKeyPath], applied to one key. *)
Definition trimKey (k : string) : string :=
  strings.TrimSuffix (strings.TrimSuffix k ".yaml") ".txt".

(** [parseSopsKeyPath]; Go's [nil] slice is [None].  [parts[1:]] of a
    slice of length at least two is never [nil]. *)
Definition parseSopsKeyPath (filePath : string) : option (list string) :=
  let parts := pathParts filePath in
  if (length parts <? 2)%nat || negb (String.eqb (nth 0 parts "") "secrets")
  then None
  else Some (map trimKey (drop 1 parts)).

(* ===================================================================== *)
(** ** Time                                                               *)
(* ===================================================================== *)

(** A [time.Time] is an instant in nanoseconds; a [time.Duration] is a
    signed 64-bit count of nanoseconds. *)
Definition minDuration : Z := - 2 ^ 63.
Definition maxDuration : Z := 2 ^ 63 - 1.

(** [t.Sub(u)]: the duration [t - u], or the minimum or maximum duration
    when [t - u] does not fit.  [time.Since(u)] is [time.Now().Sub(u)]. *)
Definition Time_Sub (t u : Z) : Z :=
  let d := (t - u)%Z in
  if (d <? minDuration)%Z then minDuration
  else if (maxDuration <? d)%Z then maxDuration
  else d.

Definition Minute : Z := 60 * 1000000000.
Definition secretCacheTTL : Z := 5 * Minute.
Definition cacheCleanupPeriod : Z := 10 * Minute.

(* ===================================================================== *)
(** ** Data                                                               *)
(* ===================================================================== *)

(** What yaml.v3 puts in an [interface{}]: a [map[string]interface{}], a
    string, or any other value (number, boolean, null, sequence), which the
    program never looks into; it is kept as its source text. *)
Inductive Value : Type :=
  | VMap (m : gmap string Value)
  | VString (s : string)
  | VOther (yaml : string).

(** The type assertion [_, isMap := v.(map[string]interface{})]. *)
Definition isMap (v : Value) : bool :=
  match v with VMap _ => true | _ => false end.

Inductive error : Type :=
  | ErrNotFound
  | ErrInternal
  | ErrPathError (k : string)
  | ErrKeyNotFound (keyPath : list string)
  | ErrLibrary (msg : string)
  | ErrWrapped (format : string) (cause : error).

Inductive result (A : Type) : Type :=
  | Ok (a : A)
  | Err (e : error).
Arguments Ok {A} a.
Arguments Err {A} e.

(** A call that either returns or stops the goroutine with a run-time
    panic. *)
Inductive outcome (A : Type) : Type :=
  | Returns (a : A)
  | Panics.
Arguments Returns {A} a.
Arguments Panics {A}.

Record cachedSecret : Type := mkCachedSecret {
  value : string;
  timestamp : Z
}.

Record SopsClient : Type := mkSopsClient {
  keyserviceAddr : string
}.

(** [SopsFS]; a [nil] client pointer is [None], the lock is not modelled
    (every operation below runs alone). *)
Record SopsFS : Type := mkSopsFS {
  sopsClient : option SopsClient;
  secretsWSLPath : string;
  secretsTree : gmap string Value;
  secretsCache : gmap string cachedSecret
}.

(** The fields of [fuse.Stat_t] that main.go writes. *)
Record Stat_t : Type := mkStat {
  Mode : Z;
  Size : Z
}.

(** File-type bits of cgofuse ([fuse.S_IFDIR], [fuse.S_IFREG]) and the
    permission bits written as octal literals in main.go. *)
Definition S_IFDIR : Z := 16384.  (* 0040000 *)
Definition S_IFREG : Z := 32768.  (* 0100000 *)
Definition perm0555 : Z := 365.
Definition perm0444 : Z := 292.

Definition ENOENT : Z := -2.
Definition EIO : Z := -5.
Definition ENOTDIR : Z := -20.
Definition EISDIR : Z := -21.

(* ===================================================================== *)
(** ** The world and its monad                                            *)
(* ===================================================================== *)

(** An argument of [log.Printf]. *)
Inductive LogArg : Type :=
  | AStr (s : string)
  | AInt (n : Z)
  | AErr (e : error).

(** The world an operation runs in: the filesystem object, the calls made
    so far to [SopsClient.DecryptKey] (file path and key path, oldest
    first), and the lines handed to [log.Printf] (format and arguments,
    oldest first). *)
Record World : Type := mkWorld {
  fs : SopsFS;
  decryptCalls : list (string * list string);
  logged : list (string * list LogArg)
}.

Definition M (A : Type) : Type := World -> A * World.

Definition ret {A : Type} (a : A) : M A := fun w => (a, w).

Definition bind {A B : Type} (m : M A) (k : A -> M B) : M B :=
  fun w => let (a, w') := m w in k a w'.

Notation "'let*' x ':=' m 'in' k" := (bind m (fun x => k))
  (at level 10, x name, m at level 200, k at level 200).
Notation "m ';;' k" := (bind m (fun _ => k))
  (at level 100, k at level 200, right associativity).

Definition getFS : M SopsFS := fun w => (fs w, w).

Definition setCache (c : gmap string cachedSecret) : M unit := fun w =>
  (tt, mkWorld (mkSopsFS (sopsClient (fs w)) (secretsWSLPath (fs w))
                         (secretsTree (fs w)) c)
               (decryptCalls w) (logged w)).

Definition setTree (t : gmap string Value) : M unit := fun w =>
  (tt, mkWorld (mkSopsFS (sopsClient (fs w)) (secretsWSLPath (fs w))
                         t (secretsCache (fs w)))
               (decryptCalls w) (logged w)).

Definition log_Printf (format : string) (args : list LogArg) : M unit := fun w =>
  (tt, mkWorld (fs w) (decryptCalls w) (logged w ++ [(format, args)])).

(** The condition under which [cacheCleanupLoop] deletes an entry:
    [now.Sub(cached.timestamp) > secretCacheTTL]. *)
Definition expired (now : Z) (entry : string * cachedSecret) : Prop :=
  (secretCacheTTL < Time_Sub now (timestamp entry.2))%Z.

#[global] Instance expired_dec now entry : Decision (expired now entry).
Proof. unfold expired. apply _. Defined.

(* ===================================================================== *)
(** ** The collaborators and the operations                               *)
(* ===================================================================== *)

Section SopsFS.

(** [os.ReadFile] of the secrets file and [yaml.Unmarshal] of its bytes
    into a [map[string]interface{}], as [GetSecretsStructure] calls
    them; an error is the one [GetSecretsStructure] returns for it, with
    its [fmt.Errorf] wrapping. *)
Variable os_ReadFile : string -> result string.
Variable yaml_Unmarshal : string -> result (gmap string Value).

(** Steps 1 to 3 of [DecryptKey] up to the parsed plaintext document
    [root]: read and load the encrypted file, decrypt the tree through
    the key services, emit the plaintext, parse it.  The first argument
    is the number of calls made before this one: two calls with the same
    file may end differently. *)
Variable decryptDocument : nat -> string -> result Value.

(** [fmt.Sprintf("%v", v)]. *)
Variable Sprintf_v : Value -> string.

(** *** sops client *)

(** [GetSecretsStructure]: the parsed mapping without its "sops" key. *)
Definition GetSecretsStructure (filePath : string)
  : M (result (gmap string Value)) :=
  log_Printf "[SopsClient] Reading secrets structure from %s" [AStr filePath];;
  match os_ReadFile filePath with
  | Err e => ret (Err e)
  | Ok data =>
      match yaml_Unmarshal data with
      | Err e => ret (Err e)
      | Ok sopsFile =>
          let sopsFile := delete "sops" sopsFile in
          log_Printf "[SopsClient] Loaded structure with %d top-level keys"
                     [AInt (Z.of_nat (size sopsFile))];;
          ret (Ok sopsFile)
      end
  end.

(** The loop of [DecryptKey] that extracts the requested key from the
    plaintext document, and the final switch. *)
Fixpoint extractKey (keyPath : list string) (cur : Value) (rest : list string)
  : result string :=
  match rest with
  | [] => match cur with
          | VString v => Ok v
          | v => Ok (Sprintf_v v)
          end
  | k :: rest' =>
      match cur with
      | VMap m =>
          match m !! k with
          | Some v => extractKey keyPath v rest'
          | None => Err (ErrKeyNotFound keyPath)
          end
      | _ => Err (ErrPathError k)
      end
  end.

(** [DecryptKey], for the call made after [n] earlier ones.  The lines it
    logs itself (with the time the decryption took) are not recorded. *)
Definition DecryptKey (n : nat) (filePath : string) (keyPath : list string)
  : result string :=
  match decryptDocument n filePath with
  | Err e => Err e
  | Ok root => extractKey keyPath root keyPath
  end.

(** Calling [fs.sopsClient.DecryptKey]: the call is recorded. *)
Definition callDecryptKey (filePath : string) (keyPath : list string)
  : M (result string) := fun w =>
  (DecryptKey (length (decryptCalls w)) filePath keyPath,
   mkWorld (fs w) (decryptCalls w ++ [(filePath, keyPath)]) (logged w)).

(** *** Secret tree *)

(** [refreshSecretsStructure]; [None] is the [nil] error. *)
Definition refreshSecretsStructure : M (option error) :=
  let* f := getFS in
  let* r := GetSecretsStructure (secretsWSLPath f) in
  match r with
  | Err e => ret (Some e)
  | Ok structure =>
      setTree structure;;
      log_Printf "[SopsFS] Loaded secrets structure with %d top-level keys"
                 [AInt (Z.of_nat (size structure))];;
      ret None
  end.

(** The loop of [navigateToPath] from the node [current]. *)
Fixpoint navigate (current : Value) (keyPath : list string) : option Value :=
  match keyPath with
  | [] => Some current
  | key :: rest =>
      match current with
      | VMap m =>
          match m !! key with
          | Some v => navigate v rest
          | None => None
          end
      | _ => None
      end
  end.

(** [navigateToPath]; [(nil, false)] is [None]. *)
Definition navigateToPath (keyPath : list string) : M (option Value) :=
  let* f := getFS in
  ret (navigate (VMap (secretsTree f)) keyPath).

(** *** Cache *)

(** The read-locked lookup of [readSecret] at the instant [now]. *)
Definition cacheGet (now : Z) (path : string) : M (option string) :=
  let* f := getFS in
  match secretsCache f !! path with
  | Some cached =>
      if (Time_Sub now (timestamp cached) <? secretCacheTTL)%Z
      then ret (Some (value cached))
      else ret None
  | None => ret None
  end.

(** The write-locked store of [readSecret] at the instant [now]. *)
Definition cachePut (now : Z) (path : string) (secret : string) : M unit :=
  let* f := getFS in
  setCache (<[path := mkCachedSecret secret now]> (secretsCache f)).

(** One turn of the loop of [cacheCleanupLoop], the ticker firing at
    [now]. *)
Definition sweepExpired (now : Z) : M unit :=
  let* f := getFS in
  let removed := filter (expired now) (secretsCache f) in
  setCache (filter (fun entry => ~ expired now entry) (secretsCache f));;
  fun w => (tt, mkWorld (fs w) (decryptCalls w)
    (logged w ++ map (fun entry : string * cachedSecret =>
                        ("[CacheCleanup] Removed expired cache entry for %s",
                         [AStr entry.1]))
                     (map_to_list removed))).

(** [cacheCleanupLoop] over the instants at which the ticker fires. *)
Fixpoint cacheCleanupLoop (ticks : list Z) : M unit :=
  match ticks with
  | [] => ret tt
  | now :: ticks' => sweepExpired now;; cacheCleanupLoop ticks'
  end.

(** [readSecret]; [now] is the instant read by [time.Since], [later] the
    one read by [time.Now] after the decryption. *)
Definition readSecret (now later : Z) (path : string) : M (result string) :=
  match parseSopsKeyPath path with
  | None => ret (Err ErrNotFound)
  | Some keyPath =>
      let* f := getFS in
      match sopsClient f with
      | None => ret (Err ErrInternal)
      | Some _ =>
          let* hit := cacheGet now path in
          match hit with
          | Some v =>
              log_Printf "[ReadSecret] Cache HIT for %s" [AStr path];;
              ret (Ok v)
          | None =>
              log_Printf "[ReadSecret] Cache MISS for %s, decrypting..." [AStr path];;
              let* r := callDecryptKey (secretsWSLPath f) keyPath in
              match r with
              | Err e => ret (Err e)
              | Ok secret =>
                  cachePut later path secret;;
                  log_Printf "[ReadSecret] Cached decrypted secret for %s" [AStr path];;
                  ret (Ok secret)
              end
          end
      end
  end.

(** *** FUSE callbacks *)

Definition dirMode : Z := Z.lor S_IFDIR perm0555.
Definition fileMode : Z := Z.lor S_IFREG perm0444.

(** [Getattr]: the return code and the [stat] record after the call. *)
Definition Getattr (path : string) (stat : Stat_t) (fh : Z) : M (Z * Stat_t) :=
  log_Printf "[Getattr] path=%s" [AStr path];;
  if String.eqb path "/" then ret (0%Z, mkStat dirMode (Size stat))
  else if String.eqb path "/secrets" then ret (0%Z, mkStat dirMode (Size stat))
  else if negb (strings.HasPrefix path "/secrets/") then ret (ENOENT, stat)
  else
    match parseSopsKeyPath path with
    | None => ret (ENOENT, stat)
    | Some keyPath =>
        let* found := navigateToPath keyPath in
        match found with
        | None => ret (ENOENT, stat)
        | Some node =>
            if isMap node then ret (0%Z, mkStat dirMode (Size stat))
            else
              log_Printf "[Getattr] File %s exists, using default size" [AStr path];;
              ret (0%Z, mkStat fileMode 4096)
        end
    end.

(** [Open]: the return code and the file handle. *)
Definition Open (path : string) (flags : Z) : M (Z * Z) :=
  log_Printf "[Open] path=%s flags=%d" [AStr path; AInt flags];;
  if negb (strings.HasPrefix path "/secrets/") then ret (ENOENT, 0%Z)
  else
    match parseSopsKeyPath path with
    | None => ret (ENOENT, 0%Z)
    | Some keyPath =>
        let* found := navigateToPath keyPath in
        match found with
        | None => ret (ENOENT, 0%Z)
        | Some node =>
            if isMap node then ret (EISDIR, 0%Z) else ret (0%Z, 0%Z)
        end
    end.

Definition Release (path : string) (fh : Z) : M Z :=
  log_Printf "[Release] path=%s fh=%d" [AStr path; AInt fh];;
  ret 0%Z.

(** The built-in [copy(dst, src)]: the number of bytes copied and [dst]
    after the copy. *)
Definition copy (dst src : list ascii) : Z * list ascii :=
  let n := Nat.min (length dst) (length src) in
  (Z.of_nat n, (take n src ++ drop n dst)%list).

(** [Read]: the return code and the buffer after the call.  The slice
    expression [data[ofst:]] panics when [ofst] is negative. *)
Definition Read (now later : Z) (path : string) (buff : list ascii)
                (ofst : Z) (fh : Z) : M (outcome (Z * list ascii)) :=
  log_Printf "[Read] path=%s offset=%d size=%d"
             [AStr path; AInt ofst; AInt (Z.of_nat (length buff))];;
  if negb (strings.HasPrefix path "/secrets/") then ret (Returns (ENOENT, buff))
  else
    let* r := readSecret now later path in
    match r with
    | Err e =>
        log_Printf "[Read] Error reading secret: %v" [AErr e];;
        ret (Returns (EIO, buff))
    | Ok secret =>
        let data := list_ascii_of_string secret in
        if (Z.of_nat (length data) <=? ofst)%Z then ret (Returns (0%Z, buff))
        else if (ofst <? 0)%Z then ret Panics
        else
          let (n, buff') := copy buff (drop (Z.to_nat ofst) data) in
          log_Printf "[Read] Returning %d bytes" [AInt n];;
          ret (Returns (n, buff'))
    end.

(** The entries a directory listing passes to [fill] for the children of
    one mapping, in the iteration order of the map. *)
Definition fillChildren (m : gmap string Value)
  : list (string * option Stat_t) :=
  map (fun entry : string * Value =>
         (entry.1,
          Some (mkStat (if isMap entry.2 then dirMode else fileMode) 0)))
      (map_to_list m).

(** [Readdir]: the return code and the calls made to [fill] (name and
    [stat] argument), in order. *)
Definition Readdir (path : string) (ofst : Z) (fh : Z)
  : M (Z * list (string * option Stat_t)) :=
  log_Printf "[Readdir] path=%s" [AStr path];;
  let dots := [(".", None); ("..", None)] in
  if String.eqb path "/"
  then ret (0%Z, (dots ++ [("secrets", Some (mkStat dirMode 0))])%list)
  else if String.eqb path "/secrets" then
    let* f := getFS in
    ret (0%Z, (dots ++ fillChildren (secretsTree f))%list)
  else if negb (strings.HasPrefix path "/secrets/") then ret (ENOENT, dots)
  else
    match parseSopsKeyPath path with
    | None => ret (ENOENT, dots)
    | Some keyPath =>
        let* found := navigateToPath keyPath in
        match found with
        | None => ret (ENOENT, dots)
        | Some (VMap m) => ret (0%Z, (dots ++ fillChildren m)%list)
        | Some _ => ret (ENOTDIR, dots)
        end
    end.

(** [Opendir]: the return code and the directory handle. *)
Definition Opendir (path : string) : M (Z * Z) :=
  log_Printf "[Opendir] path=%s" [AStr path];;
  if String.eqb path "/" || String.eqb path "/secrets" then ret (0%Z, 0%Z)
  else if negb (strings.HasPrefix path "/secrets/") then ret (ENOENT, 0%Z)
  else
    match parseSopsKeyPath path with
    | None => ret (ENOENT, 0%Z)
    | Some keyPath =>
        let* found := navigateToPath keyPath in
        match found with
        | None => ret (ENOENT, 0%Z)
        | Some node =>
            if negb (isMap node) then ret (ENOTDIR, 0%Z) else ret (0%Z, 0%Z)
        end
    end.

Definition Releasedir (path : string) (fh : Z) : M Z :=
  log_Printf "[Releasedir] path=%s fh=%d" [AStr path; AInt fh];;
  ret 0%Z.

(** [NewSopsFS] up to the start of the sweep: the filesystem object
    with an empty cache, then the first load of the structure, whose
    error is returned wrapped by [fmt.Errorf] with the verb [%w]. *)
Definition NewSopsFS (client : option SopsClient) (secretsWSLPath : string)
  : result World :=
  let w0 := mkWorld (mkSopsFS client secretsWSLPath ∅ ∅) [] [] in
  match refreshSecretsStructure w0 with
  | (Some e, _) => Err (ErrWrapped "failed to load secrets structure: %w" e)
  | (None, w) => Ok w
  end.

End SopsFS.

(* ===================================================================== *)
(** ** Start-up, self-test and diagnostics                                *)
(* ===================================================================== *)

(** [findLeafPath node currentPath r]: a call of [findLeafPath] on [node]
    with [*currentPath] equal to [currentPath] can return [r.1] and leave
    [r.2] in [*currentPath].  Go ranges over a map in an unspecified order
    that may differ from one [range] statement to the next: a run visits
    the entries of each mapping in any order, [entries] being any
    permutation of them. *)
Inductive findLeafPath : Value -> list string -> bool * list string -> Prop :=
  | findLeafPath_default (node : Value) (currentPath : list string) :
      isMap node = false ->
      findLeafPath node currentPath (true, currentPath)
  | findLeafPath_map (v : gmap string Value) (entries : list (string * Value))
                     (currentPath : list string) (r : bool * list string) :
      entries ≡ₚ map_to_list v ->
      findLeafPath_range entries currentPath r ->
      findLeafPath (VMap v) currentPath r

(** The [for key, value := range v] loop over the entries that are still to
    be visited: the key is appended, the call on the value returns true
    (the loop returns true and the path stays) or false (the key is taken
    off again and the loop goes on); after the last entry the loop is left
    and the function returns false. *)
with findLeafPath_range
  : list (string * Value) -> list string -> bool * list string -> Prop :=
  | findLeafPath_range_end (currentPath : list string) :
      findLeafPath_range [] currentPath (false, currentPath)
  | findLeafPath_range_return (key : string) (value : Value)
      (rest : list (string * Value)) (currentPath path' : list string) :
      findLeafPath value (currentPath ++ [key]) (true, path') ->
      findLeafPath_range ((key, value) :: rest) currentPath (true, path')
  | findLeafPath_range_continue (key : string) (value : Value)
      (rest : list (string * Value)) (currentPath path' : list string)
      (r : bool * list string) :
      findLeafPath value (currentPath ++ [key]) (false, path') ->
      findLeafPath_range rest (removelast path') r ->
      findLeafPath_range ((key, value) :: rest) currentPath r.

(** One run of [findLeafPath], computed: every mapping is ranged over in
    the order in which [map_fold] visits its entries. *)
Fixpoint findLeafPathFold (node : Value) (currentPath : list string) {struct node}
  : bool * list string :=
  match node with
  | VMap v =>
      map_fold (fun (key : string) (value : Value) (acc : bool * list string) =>
                  if acc.1 then acc
                  else
                    let r := findLeafPathFold value (acc.2 ++ [key])%list in
                    if r.1 then r else (false, removelast r.2))
               (false, currentPath) v
  | _ => (true, currentPath)
  end.

Section Startup.

Variable os_ReadFile : string -> result string.
Variable yaml_Unmarshal : string -> result (gmap string Value).

(** [os.Setenv key value]: the error it returns, if any; when it returns
    none the variable has the value. *)
Variable os_SetenvError : string -> string -> option error.

(** [grpc.DialContext] to a target with the options of [NewSopsClient]:
    the error it returns, if any, as [NewSopsClient] wraps it. *)
Variable grpc_DialError : string -> option error.

(** [findTestKeyPath secretsPath w out]: a call of [findTestKeyPath] in
    the world [w] can return [out.1] ([nil] is [None]) and leave the world
    [out.2]; the result depends on the run of [findLeafPath]. *)
Definition findTestKeyPath (secretsPath : string) (w : World)
    (out : option (list string) * World) : Prop :=
  match os_ReadFile secretsPath with
  | Err e =>
      out = (log_Printf "[SelfTest] Cannot read secrets file for test path discovery: %v"
                        [AErr e];;
             ret None) w
  | Ok data =>
      match yaml_Unmarshal data with
      | Err e =>
          out = (log_Printf "[SelfTest] Cannot parse secrets file for test path discovery: %v"
                            [AErr e];;
                 ret None) w
      | Ok root =>
          let root := delete "sops" root in
          exists r : bool * list string,
            findLeafPath (VMap root) [] r
            /\ out = (if r.1 then ret (Some r.2)
                      else
                        log_Printf "[SelfTest] Could not find any leaf values in secrets structure" [];;
                        ret None) w
      end
  end.

(** [configureSOPSKeyservice] on the environment [environ]: the error, the
    environment after the call and the lines logged. *)
Definition configureSOPSKeyservice (addr : string) (environ : gmap string string)
  : option error * gmap string string * list (string * list LogArg) :=
  let endpoint :=
    if negb (strings.HasPrefix addr "tcp://" || strings.HasPrefix addr "unix://")
    then "tcp://" +:+ addr
    else addr in
  match os_SetenvError "SOPS_KEYSERVICE" endpoint with
  | Some e => (Some e, environ, [])
  | None =>
      (None, <["SOPS_KEYSERVICE" := endpoint]> environ,
       [("[Diag] Normalized keyservice endpoint: %s", [AStr endpoint])])
  end.

(** [os.Getenv]: the empty string for a variable that is not set. *)
Definition os_Getenv (environ : gmap string string) (key : string) : string :=
  default "" (environ !! key).

(** The target that the ks-smoketest branch of [main] dials after
    [configureSOPSKeyservice]:
    [strings.TrimPrefix(os.Getenv("SOPS_KEYSERVICE"), "tcp://")]. *)
Definition ksSmokeTarget (environ : gmap string string) : string :=
  strings.TrimPrefix (os_Getenv environ "SOPS_KEYSERVICE") "tcp://".

(** [NewSopsClient]: the client keeps the address as it was given and
    dials it without a leading "tcp://". *)
Definition NewSopsClient (addr : string) : M (result SopsClient) :=
  log_Printf "[SopsClient] Using remote SOPS keyservice at %s" [AStr addr];;
  let target := strings.TrimPrefix addr "tcp://" in
  match grpc_DialError target with
  | Some e => ret (Err e)
  | None =>
      log_Printf "[SopsClient] Configured %d KeyServices: local + remote gRPC to %s"
                 [AInt 2; AStr addr];;
      ret (Ok (mkSopsClient addr))
  end.

End Startup.

(* ===================================================================== *)
(** ** Vocabulary of the statements                                       *)
(* ===================================================================== *)

(** Whether the byte [c] occurs in [s]. *)
Fixpoint containsByte (c : ascii) (s : string) : bool :=
  match s with
  | EmptyString => false
  | String c' s' => Ascii.eqb c' c || containsByte c s'
  end.

(** The segments [keys] written as one string with "/" between them. *)
Fixpoint joinPath (keys : list string) : string :=
  match keys with
  | [] => ""
  | [k] => k
  | k :: rest => k +:+ String slash (joinPath rest)
  end.

(** The path of the entry [name] of the directory [dir], as a filesystem
    client forms it. *)
Definition childPath (dir name : string) : string :=
  if String.eqb dir "/" then "/" +:+ name else dir +:+ String slash name.

(** What a resolved node is for the callbacks. *)
Inductive Kind : Type := Directory | File | Absent.

Definition classify (found : option Value) : Kind :=
  match found with
  | None => Absent
  | Some node => if isMap node then Directory else File
  end.

(** The answers of the four resolving callbacks for a node of each kind:
    [Getattr] (with the [stat] it was given), [Open], [Opendir] and the
    return code of [Readdir]. *)
Definition answers (k : Kind) (stat : Stat_t) : (Z * Stat_t) * (Z * Z) * (Z * Z) * Z :=
  match k with
  | Directory => ((0, mkStat dirMode (Size stat)), (EISDIR, 0), (0, 0), 0)%Z
  | File => ((0, mkStat fileMode 4096), (0, 0), (ENOTDIR, 0), ENOTDIR)%Z
  | Absent => ((ENOENT, stat), (ENOENT, 0), (ENOENT, 0), ENOENT)%Z
  end.

(** The number of nodes of a value. *)
Fixpoint Value_size (v : Value) : nat :=
  match v with
  | VMap m => S (map_fold (fun _ v' acc => (Value_size v' + acc)%nat) O m)
  | _ => 1
  end.

(** The world [w] with another secret tree. *)
Definition withTree (tree : gmap string Value) (w : World) : World :=
  mkWorld (mkSopsFS (sopsClient (fs w)) (secretsWSLPath (fs w)) tree
                    (secretsCache (fs w)))
          (decryptCalls w) (logged w).

(** [key] is [seg] without a trailing ".yaml", if [seg] has one, and then
    without a trailing ".txt", if what is left has one. *)
Definition trimmedFrom (seg key : string) : Prop :=
  exists mid t y : string,
    seg = mid +:+ y /\ mid = key +:+ t
    /\ y = (if strings.HasSuffix seg ".yaml" then ".yaml" else "")
    /\ t = (if strings.HasSuffix mid ".txt" then ".txt" else "").

(** The reading under which only the final segment of [path] may change,
    and by one suffix at most. *)
Definition trimsLastSegmentOnce (path : string) : Prop :=
  forall keys, parseSopsKeyPath path = Some keys ->
  exists (init : list string) (lastSeg lastKey : string),
    drop 1 (pathParts path) = (init ++ [lastSeg])%list
    /\ keys = (init ++ [lastKey])%list
    /\ (lastSeg = lastKey \/ lastSeg = lastKey +:+ ".yaml"
        \/ lastSeg = lastKey +:+ ".txt").

(** Neither the calls made to [DecryptKey] nor the cache table differ
    between [w] and [w']. *)
Definition untouched (w w' : World) : Prop :=
  decryptCalls w' = decryptCalls w
  /\ secretsCache (fs w') = secretsCache (fs w).

(** No mapping reachable from [root] has the empty string as a key. *)
Definition noEmptyKeys (root : Value) : Prop :=
  forall (keyPath : list string) (m : gmap string Value),
    navigate root keyPath = Some (VMap m) -> m !! "" = None.

(** The reading under which each of the five path-resolving callbacks
    answers ENOENT for [path]. *)
Definition everyOperationNotFound
    (decryptDocument : nat -> string -> result Value)
    (Sprintf_v : Value -> string) (w : World) (path : string) : Prop :=
  forall (now later : Z) (stat : Stat_t) (fh flags ofst : Z) (buff : list ascii),
    (Getattr path stat fh w).1.1 = ENOENT
    /\ (Open path flags w).1.1 = ENOENT
    /\ (Opendir path w).1.1 = ENOENT
    /\ (Readdir path ofst fh w).1.1 = ENOENT
    /\ exists buff',
         (Read decryptDocument Sprintf_v now later path buff ofst fh w).1
         = Returns (ENOENT, buff').

(** Sample collaborators and worlds for the examples. *)
Definition sampleClient : SopsClient := mkSopsClient "localhost:5000".

Definition samplePlain : Value :=
  VMap {[ "api" := VMap {[ "github" := VString "token" ]} ]}.

Definition sampleTree : gmap string Value :=
  {[ "api" := VMap {[ "github" := VString "ENC[AES256_GCM]" ]} ]}.

(** A decryption that times out on the first call and works afterwards. *)
Definition flakyDocument (n : nat) (filePath : string) : result Value :=
  match n with
  | O => Err (ErrLibrary "sops decrypt failed: context deadline exceeded")
  | S _ => Ok samplePlain
  end.

Definition steadyDocument (n : nat) (filePath : string) : result Value :=
  Ok samplePlain.

Definition sampleSprintf (v : Value) : string :=
  match v with
  | VMap _ => "map[]"
  | VString s => s
  | VOther yaml => yaml
  end.

Definition sampleWorld (cache : gmap string cachedSecret) : World :=
  mkWorld (mkSopsFS (Some sampleClient) "secrets.yaml" sampleTree cache) [] [].

Definition sampleReadFile (filePath : string) : result string :=
  Ok "api: {github: ENC[AES256_GCM]}, sops: {version: 3.8.1}".

Definition sampleUnmarshal (data : string) : result (gmap string Value) :=
  Ok (<[ "sops" := VMap {[ "version" := VOther "3.8.1" ]} ]> sampleTree).

(** A tree with a key that ends in a recognized suffix. *)
Definition suffixWorld : World :=
  mkWorld (mkSopsFS (Some sampleClient) "secrets.yaml"
                    {[ "config.yaml" := VString "ENC[AES256_GCM]" ]} ∅) [] [].

(** The reading under which a read at every offset below the length of
    the content [secret], negative ones included, returns to its caller. *)
Definition servesEveryOffsetBelow
    (decryptDocument : nat -> string -> result Value)
    (Sprintf_v : Value -> string) (now later : Z) (path : string)
    (buff : list ascii) (fh : Z) (w : World) (secret : string) : Prop :=
  forall ofst : Z,
    (ofst < Z.of_nat (length (list_ascii_of_string secret)))%Z ->
    exists (n : Z) (buff' : list ascii),
      (Read decryptDocument Sprintf_v now later path buff ofst fh w).1
      = Returns (n, buff').

(** A mapping with two leaves. *)
Definition twoLeaves : gmap string Value :=
  list_to_map [("a", VString "x"); ("b", VString "y")].

Ltac run :=
  unfold navigateToPath, cacheGet, cachePut, callDecryptKey in *;
  unfold bind, ret, getFS, setCache, setTree, log_Printf in *;
  simpl in *.

(* ===================================================================== *)
(** ** Facts about the string functions                                   *)
(* ===================================================================== *)

Lemma append_String (c : ascii) (a b : string) :
  String c a +:+ b = String c (a +:+ b).
Proof. reflexivity. Qed.

Lemma slice_split (n : nat) (s : string) :
  strings.sliceTo n s +:+ strings.sliceFrom n s = s.
Proof.
  revert s. induction n as [|n IH]; intros [|c s]; simpl; try reflexivity.
  by rewrite append_String, IH.
Qed.

Lemma HasPrefix_split (s prefix : string) :
  strings.HasPrefix s prefix = true ->
  s = prefix +:+ strings.sliceFrom (String.length prefix) s.
Proof.
  unfold strings.HasPrefix. intros [_ Heq%String.eqb_eq]%andb_prop.
  set (n := String.length prefix) in *.
  rewrite <- Heq. by rewrite slice_split.
Qed.

Lemma HasSuffix_split (s suffix : string) :
  strings.HasSuffix s suffix = true ->
  s = strings.TrimSuffix s suffix +:+ suffix.
Proof.
  intros H. unfold strings.TrimSuffix. rewrite H.
  unfold strings.HasSuffix in H. apply andb_prop in H as [_ Heq%String.eqb_eq].
  set (n := (String.length s - String.length suffix)%nat) in *.
  rewrite <- Heq. by rewrite slice_split.
Qed.

Lemma TrimSuffix_absent (s suffix : string) :
  strings.HasSuffix s suffix = false -> strings.TrimSuffix s suffix = s.
Proof. intros H. unfold strings.TrimSuffix. by rewrite H. Qed.

Lemma Split_length (s : string) (sep : ascii) :
  (1 <= length (strings.Split s sep))%nat.
Proof.
  induction s as [|c s IH]; simpl; [lia|].
  destruct (Ascii.eqb c sep); simpl; [lia|].
  destruct (strings.Split s sep); simpl in *; lia.
Qed.

(** What the guard of [parseSopsKeyPath] accepts. *)
Lemma parse_Some_inv (path : string) (keys : list string) :
  parseSopsKeyPath path = Some keys ->
  exists segs, pathParts path = "secrets" :: segs /\ segs <> []
               /\ keys = map trimKey segs.
Proof.
  unfold parseSopsKeyPath. intros H.
  destruct (pathParts path) as [|p0 segs] eqn:Hparts; simpl in H; [discriminate|].
  destruct segs as [|seg segs]; simpl in H; [discriminate|].
  destruct (String.eqb p0 "secrets") eqn:Hp0; simpl in H; [|discriminate].
  apply String.eqb_eq in Hp0 as ->. injection H as <-.
  by exists (seg :: segs).
Qed.

Lemma parse_None_iff (path : string) :
  parseSopsKeyPath path = None <->
  (length (pathParts path) < 2)%nat \/ nth 0 (pathParts path) "" <> "secrets".
Proof.
  unfold parseSopsKeyPath.
  destruct (length (pathParts path) <? 2)%nat eqn:Hlen; simpl.
  - apply Nat.ltb_lt in Hlen. tauto.
  - apply Nat.ltb_ge in Hlen.
    destruct (String.eqb (nth 0 (pathParts path) "") "secrets") eqn:Hhd; simpl.
    + apply String.eqb_eq in Hhd. split; [discriminate|]. intros [?|?]; [lia|done].
    + apply String.eqb_neq in Hhd. tauto.
Qed.

Lemma pathParts_under_secrets (r : string) :
  pathParts ("/secrets/" +:+ r) = "secrets" :: strings.Split r slash.
Proof.
  change ("/secrets/" +:+ r) with (String "/" ("secrets" +:+ String "/" r)).
  unfold pathParts, strings.TrimPrefix, strings.HasPrefix. simpl.
  change ("secrets" +:+ String "/" r)
    with (String "s" (String "e" (String "c" (String "r" (String "e"
           (String "t" (String "s" (String "/" r)))))))).
  simpl. pose proof (Split_length r slash) as Hlen.
  destruct (strings.Split r slash); [simpl in Hlen; lia|reflexivity].
Qed.

(** A path that passes the [strings.HasPrefix(path, "/secrets/")] test of
    the callbacks always derives a key path. *)
Lemma parse_under_secrets (path : string) :
  strings.HasPrefix path "/secrets/" = true ->
  parseSopsKeyPath path
  = Some (map trimKey (strings.Split (strings.sliceFrom 9 path) slash)).
Proof.
  intros H%HasPrefix_split.
  change (String.length "/secrets/") with 9%nat in H.
  set (r := strings.sliceFrom 9 path) in *. clearbody r. subst path.
  unfold parseSopsKeyPath. rewrite pathParts_under_secrets.
  pose proof (Split_length r slash) as Hlen.
  destruct (strings.Split r slash) as [|seg segs]; [simpl in Hlen; lia|].
  reflexivity.
Qed.

Lemma append_empty_r (s : string) : s +:+ "" = s.
Proof. induction s as [|c s IH]; [reflexivity|]. by rewrite append_String, IH. Qed.

Lemma trimKey_trimmedFrom (seg : string) : trimmedFrom seg (trimKey seg).
Proof.
  unfold trimKey.
  exists (strings.TrimSuffix seg ".yaml").
  exists (if strings.HasSuffix (strings.TrimSuffix seg ".yaml") ".txt"
          then ".txt" else "").
  exists (if strings.HasSuffix seg ".yaml" then ".yaml" else "").
  repeat split.
  - destruct (strings.HasSuffix seg ".yaml") eqn:Hy.
    + by apply HasSuffix_split.
    + by rewrite TrimSuffix_absent, append_empty_r.
  - destruct (strings.HasSuffix (strings.TrimSuffix seg ".yaml") ".txt") eqn:Ht.
    + by apply HasSuffix_split.
    + by rewrite (TrimSuffix_absent _ ".txt"), append_empty_r.
Qed.

(** The table of [TestParseSopsKeyPath] (main_test.go). *)
Example parse_top_level :
  parseSopsKeyPath "/secrets/vaultwarden_admin_token"
  = Some ["vaultwarden_admin_token"].
Proof. reflexivity. Qed.

Example parse_nested :
  parseSopsKeyPath "/secrets/postgres/admin_pass" = Some ["postgres"; "admin_pass"].
Proof. reflexivity. Qed.

Example parse_deeply_nested :
  parseSopsKeyPath "/secrets/aws/hosted_zone_id_bogorad_eu"
  = Some ["aws"; "hosted_zone_id_bogorad_eu"].
Proof. reflexivity. Qed.

Example parse_yaml_extension :
  parseSopsKeyPath "/secrets/postgres/test_pass.yaml" = Some ["postgres"; "test_pass"].
Proof. reflexivity. Qed.

Example parse_txt_extension :
  parseSopsKeyPath "/secrets/codeium_config.txt" = Some ["codeium_config"].
Proof. reflexivity. Qed.

Example parse_wrong_root : parseSopsKeyPath "/other/path" = None.
Proof. reflexivity. Qed.

Example parse_empty : parseSopsKeyPath "" = None.
Proof. reflexivity. Qed.

(** Suffixes on an inner segment, and two suffixes on one segment. *)
Example parse_inner_suffix :
  parseSopsKeyPath "/secrets/a.yaml/b" = Some ["a"; "b"].
Proof. reflexivity. Qed.

Example parse_double_suffix :
  parseSopsKeyPath "/secrets/x.txt.yaml" = Some ["x"].
Proof. reflexivity. Qed.

Example parse_yaml_txt_order :
  parseSopsKeyPath "/secrets/x.yaml.txt" = Some ["x.yaml"].
Proof. reflexivity. Qed.

(* ===================================================================== *)
(** ** Path derivation: what is stripped, and totality                    *)
(* ===================================================================== *)

(** C1 (as amended): for every path accepted by the prefix check, the key
    path is the list of the segments after the mount root, in order, where
    every segment (not only the last one) has lost a trailing ".yaml" if it
    had one and then a trailing ".txt" if what was left had one. *)
Theorem parseSopsKeyPath_trims_every_segment (path : string) (keys : list string) :
  parseSopsKeyPath path = Some keys ->
  exists segs : list string,
    pathParts path = "secrets" :: segs /\ Forall2 trimmedFrom segs keys.
Proof.
  intros (segs & Hparts & _ & ->)%parse_Some_inv.
  exists segs. split; [done|].
  clear Hparts. induction segs as [|seg segs IH]; simpl; constructor.
  - apply trimKey_trimmedFrom.
  - apply IH.
Qed.

Lemma parseSopsKeyPath_trims_every_segment_witness :
  parseSopsKeyPath "/secrets/postgres/test_pass.yaml" = Some ["postgres"; "test_pass"]
  /\ exists segs : list string,
       pathParts "/secrets/postgres/test_pass.yaml" = "secrets" :: segs
       /\ Forall2 trimmedFrom segs ["postgres"; "test_pass"].
Proof.
  split; [reflexivity|].
  apply (parseSopsKeyPath_trims_every_segment "/secrets/postgres/test_pass.yaml").
  reflexivity.
Defined.

(** C1 (as stated) fails: a ".yaml" on an inner segment is stripped too,
    and a final segment ending in ".txt.yaml" loses both suffixes. *)
Lemma parseSopsKeyPath_not_last_segment_once :
  ~ trimsLastSegmentOnce "/secrets/a.yaml/b"
  /\ ~ trimsLastSegmentOnce "/secrets/x.txt.yaml".
Proof.
  split; intros H.
  - destruct (H ["a"; "b"] eq_refl) as (init & lastSeg & lastKey & Hsegs & Hkeys & _).
    change (drop 1 (pathParts "/secrets/a.yaml/b")) with ["a.yaml"; "b"] in Hsegs.
    destruct init as [|i0 [|i1 [|i2 init]]]; simplify_eq/=.
  - destruct (H ["x"] eq_refl) as (init & lastSeg & lastKey & Hsegs & Hkeys & Hlast).
    change (drop 1 (pathParts "/secrets/x.txt.yaml")) with ["x.txt.yaml"] in Hsegs.
    destruct init as [|i0 [|i1 init]]; simplify_eq/=.
    destruct Hlast as [?|[?|?]]; discriminate.
Qed.

(** C3: path derivation is total: for every string, [parts] has an element
    at index 0 (so no index expression goes out of range) and the function
    returns either "invalid" ([None], Go's nil) or a key path with at least
    one segment; there is no other outcome. *)
Theorem parseSopsKeyPath_total (filePath : string) :
  (1 <= length (pathParts filePath))%nat
  /\ (parseSopsKeyPath filePath = None
      \/ exists keys : list string,
           parseSopsKeyPath filePath = Some keys
           /\ (1 <= length keys)%nat
           /\ length keys = (length (pathParts filePath) - 1)%nat).
Proof.
  split; [apply Split_length|].
  destruct (parseSopsKeyPath filePath) as [keys|] eqn:H; [right|by left].
  exists keys. split; [done|].
  apply parse_Some_inv in H as (segs & Hparts & Hne & ->).
  rewrite Hparts, length_map. simpl.
  destruct segs; [done|simpl; lia].
Qed.

(* ===================================================================== *)
(** ** Attribute query on an invalid path                                 *)
(* ===================================================================== *)

(** C4: for every path other than "/" and "/secrets" that has no derived
    segment (fewer than two parts) or whose first part is not "secrets",
    [Getattr] returns ENOENT (-2) and leaves [stat] as it was: the path is
    resolved neither to the root nor to a node of the tree. *)
Theorem Getattr_invalid_path_ENOENT
    (path : string) (stat : Stat_t) (fh : Z) (w : World) :
  path <> "/" -> path <> "/secrets" ->
  (length (pathParts path) < 2)%nat \/ nth 0 (pathParts path) "" <> "secrets" ->
  (Getattr path stat fh w).1 = (ENOENT, stat).
Proof.
  intros Hroot%String.eqb_neq Hsecrets%String.eqb_neq Hbad%parse_None_iff.
  unfold Getattr. run. rewrite Hroot, Hsecrets.
  destruct (strings.HasPrefix path "/secrets/"); simpl; [|reflexivity].
  by rewrite Hbad.
Qed.

Lemma Getattr_invalid_path_ENOENT_witness :
  nth 0 (pathParts "/other/path") "" <> "secrets"
  /\ (Getattr "/other/path" (mkStat 0 0) 0 (mkWorld (mkSopsFS None "" ∅ ∅) [] [])).1
     = (ENOENT, mkStat 0 0).
Proof.
  split; [discriminate|].
  apply (Getattr_invalid_path_ENOENT "/other/path"); [discriminate|discriminate|].
  right. discriminate.
Defined.

(* ===================================================================== *)
(** ** The cache: lookup, store, sweep                                    *)
(* ===================================================================== *)

Lemma duration_bounds :
  minDuration = (-9223372036854775808)%Z
  /\ maxDuration = 9223372036854775807%Z
  /\ secretCacheTTL = 300000000000%Z.
Proof. repeat split; reflexivity. Qed.

(** Saturation does not change the comparisons with the TTL. *)
Lemma Time_Sub_fresh (now T : Z) :
  (Time_Sub now T <? secretCacheTTL)%Z = true <-> (now - T < secretCacheTTL)%Z.
Proof.
  destruct duration_bounds as (Hmin & Hmax & Httl).
  unfold Time_Sub. rewrite Hmin, Hmax, Httl.
  rewrite Z.ltb_lt.
  destruct (Z.ltb_spec (now - T) (-9223372036854775808));
    [lia | destruct (Z.ltb_spec 9223372036854775807 (now - T)); lia].
Qed.

Lemma Time_Sub_stale (now T : Z) :
  (Time_Sub now T <? secretCacheTTL)%Z = false <-> (secretCacheTTL <= now - T)%Z.
Proof.
  rewrite <- Z.nlt_ge, <- Time_Sub_fresh. by destruct (Time_Sub now T <? secretCacheTTL)%Z.
Qed.

Lemma Time_Sub_over (now T : Z) :
  (secretCacheTTL < Time_Sub now T)%Z <-> (secretCacheTTL < now - T)%Z.
Proof.
  destruct duration_bounds as (Hmin & Hmax & Httl).
  unfold Time_Sub. rewrite Hmin, Hmax, Httl.
  destruct (Z.ltb_spec (now - T) (-9223372036854775808));
    [lia | destruct (Z.ltb_spec 9223372036854775807 (now - T)); lia].
Qed.

(** What a lookup returns, as a function of the table. *)
Lemma cacheGet_spec (now : Z) (path : string) (w : World) :
  cacheGet now path w
  = (match secretsCache (fs w) !! path with
     | Some cached =>
         if (Time_Sub now (timestamp cached) <? secretCacheTTL)%Z
         then Some (value cached) else None
     | None => None
     end, w).
Proof.
  run. destruct (secretsCache (fs w) !! path) as [cached|]; [|reflexivity].
  by destruct (Time_Sub now (timestamp cached) <? secretCacheTTL)%Z.
Qed.

Lemma cachePut_cache (T : Z) (path secret : string) (w : World) :
  secretsCache (fs (cachePut T path secret w).2)
  = <[path := mkCachedSecret secret T]> (secretsCache (fs w)).
Proof. reflexivity. Qed.

Lemma sweepExpired_cache (now : Z) (w : World) :
  secretsCache (fs (sweepExpired now w).2)
  = filter (fun entry => ~ expired now entry) (secretsCache (fs w)).
Proof. reflexivity. Qed.

(** The sweep keeps an entry exactly when its age is at most the TTL. *)
Lemma sweepExpired_lookup (now : Z) (path : string) (w : World) (cached : cachedSecret) :
  secretsCache (fs (sweepExpired now w).2) !! path = Some cached
  <-> secretsCache (fs w) !! path = Some cached
      /\ (now - timestamp cached <= secretCacheTTL)%Z.
Proof.
  rewrite sweepExpired_cache, map_lookup_filter_Some. unfold expired. simpl.
  rewrite Time_Sub_over. intuition lia.
Qed.

(** C2: a lookup right after a store at instant [T] is a hit with the
    stored value exactly when [now - T < TTL] (five minutes) and a miss
    exactly when [now - T >= TTL]; and once the sweep has run at an instant
    [swept] with [swept - T >= TTL], every later lookup of that path is a
    miss. *)
Theorem cache_get_after_put
    (w : World) (path secret : string) (T now swept later : Z) :
  let w1 := (cachePut T path secret w).2 in
  ((cacheGet now path w1).1 = Some secret <-> (now - T < secretCacheTTL)%Z)
  /\ ((cacheGet now path w1).1 = None <-> (secretCacheTTL <= now - T)%Z)
  /\ ((secretCacheTTL <= swept - T)%Z -> (swept <= later)%Z ->
      (cacheGet later path (sweepExpired swept w1).2).1 = None).
Proof.
  intros w1. split; [|split].
  - unfold w1. rewrite cacheGet_spec, cachePut_cache, lookup_insert_eq. simpl.
    rewrite <- Time_Sub_fresh.
    destruct (Time_Sub now T <? secretCacheTTL)%Z; split; congruence.
  - unfold w1. rewrite cacheGet_spec, cachePut_cache, lookup_insert_eq. simpl.
    rewrite <- Time_Sub_stale.
    destruct (Time_Sub now T <? secretCacheTTL)%Z; split; congruence.
  - intros Hold Hlater. rewrite cacheGet_spec. cbv beta iota zeta. unfold fst.
    destruct (secretsCache (fs (sweepExpired swept w1).2) !! path)
      as [cached|] eqn:Hget; [|reflexivity].
    apply sweepExpired_lookup in Hget as [Hget _].
    unfold w1 in Hget. rewrite cachePut_cache, lookup_insert_eq in Hget.
    injection Hget as <-. simpl.
    assert ((Time_Sub later T <? secretCacheTTL)%Z = false) as ->; [|reflexivity].
    apply Time_Sub_stale. lia.
Qed.

Lemma cache_get_after_put_witness :
  let w0 := mkWorld (mkSopsFS None "" ∅ ∅) [] [] in
  let w1 := (cachePut 0 "/secrets/api/github" "token" w0).2 in
  (secretCacheTTL <= 300000000000 - 0)%Z /\ (300000000000 <= 600000000000)%Z
  /\ (cacheGet 600000000000 "/secrets/api/github"
        (sweepExpired 300000000000 w1).2).1 = None.
Proof.
  intros w0 w1.
  assert (secretCacheTTL <= 300000000000 - 0)%Z as Hold by (vm_compute; discriminate).
  assert (300000000000 <= 600000000000)%Z as Hlater by lia.
  split; [exact Hold|]. split; [exact Hlater|].
  exact (proj2 (proj2 (cache_get_after_put w0 "/secrets/api/github" "token"
                         0 0 300000000000 600000000000)) Hold Hlater).
Defined.

(** C7: the lookup of the read path changes nothing: when the entry of
    [path] is present but expired, [cacheGet] reports a miss and returns
    the world it was given, entry included; and after the whole
    [readSecret] the path still has an entry (the old one, or the one just
    decrypted), whatever the decryption did.  Only [sweepExpired] removes
    entries. *)
Theorem cacheGet_expired_entry_stays
    (decryptDocument : nat -> string -> result Value) (Sprintf_v : Value -> string)
    (w : World) (path : string) (cached : cachedSecret) (now later : Z) :
  secretsCache (fs w) !! path = Some cached ->
  (secretCacheTTL <= now - timestamp cached)%Z ->
  cacheGet now path w = (None, w)
  /\ secretsCache (fs (cacheGet now path w).2) !! path = Some cached
  /\ is_Some (secretsCache
                (fs (readSecret decryptDocument Sprintf_v now later path w).2)
              !! path).
Proof.
  intros Hentry Hold%Time_Sub_stale.
  assert (cacheGet now path w = (None, w)) as Hget.
  { rewrite cacheGet_spec, Hentry. by rewrite Hold. }
  split; [exact Hget|]. split; [by rewrite Hget|].
  unfold readSecret.
  destruct (parseSopsKeyPath path) as [keyPath|]; [|by run; eauto].
  unfold bind at 1. unfold getFS at 1.
  destruct (sopsClient (fs w)) as [client|]; [|by run; eauto].
  unfold bind at 1. rewrite Hget.
  unfold callDecryptKey. run.
  destruct (DecryptKey _ _ _ _ _) as [secret|e]; simpl.
  - rewrite lookup_insert_eq. eauto.
  - rewrite Hentry. eauto.
Qed.

Lemma cacheGet_expired_entry_stays_witness :
  let entry := mkCachedSecret "old" 0 in
  let w := mkWorld (mkSopsFS (Some (mkSopsClient "localhost:5000")) "secrets.yaml"
                             ∅ {["/secrets/a" := entry]}) [] [] in
  (secretCacheTTL <= 300000000000 - 0)%Z
  /\ cacheGet 300000000000 "/secrets/a" w = (None, w).
Proof.
  intros entry w.
  assert (secretCacheTTL <= 300000000000 - timestamp entry)%Z as Hold
    by (vm_compute; discriminate).
  split; [exact Hold|].
  exact (proj1 (cacheGet_expired_entry_stays
                  (fun _ _ => Err (ErrLibrary "timeout")) (fun _ => "")
                  w "/secrets/a" entry 300000000000 300000000001
                  (lookup_singleton_eq _ _) Hold)).
Defined.

(* ===================================================================== *)
(** ** File read                                                          *)
(* ===================================================================== *)

Section ReadFacts.

Variable decryptDocument : nat -> string -> result Value.
Variable Sprintf_v : Value -> string.

Local Abbreviation readSecret' := (readSecret decryptDocument Sprintf_v).
Local Abbreviation Read' := (Read decryptDocument Sprintf_v).
Local Abbreviation DecryptKey' := (DecryptKey decryptDocument Sprintf_v).

(** [readSecret] as a function of the world it starts in. *)
Lemma readSecret_spec (now later : Z) (path : string) (w : World) :
  readSecret' now later path w =
  match parseSopsKeyPath path with
  | None => (Err ErrNotFound, w)
  | Some keyPath =>
      match sopsClient (fs w) with
      | None => (Err ErrInternal, w)
      | Some _ =>
          match (cacheGet now path w).1 with
          | Some v =>
              (Ok v,
               mkWorld (fs w) (decryptCalls w)
                 (logged w ++ [("[ReadSecret] Cache HIT for %s", [AStr path])]))
          | None =>
              let file := secretsWSLPath (fs w) in
              let calls := (decryptCalls w ++ [(file, keyPath)])%list in
              let lines := (logged w ++
                [("[ReadSecret] Cache MISS for %s, decrypting...", [AStr path])])%list in
              match DecryptKey' (length (decryptCalls w)) file keyPath with
              | Err e => (Err e, mkWorld (fs w) calls lines)
              | Ok secret =>
                  (Ok secret,
                   mkWorld
                     (mkSopsFS (sopsClient (fs w)) file (secretsTree (fs w))
                        (<[path := mkCachedSecret secret later]>
                           (secretsCache (fs w))))
                     calls
                     (lines ++
                        [("[ReadSecret] Cached decrypted secret for %s",
                          [AStr path])]))
              end
          end
      end
  end.
Proof.
  unfold readSecret.
  destruct (parseSopsKeyPath path) as [keyPath|]; [|reflexivity].
  unfold bind at 1. unfold getFS at 1.
  destruct (sopsClient (fs w)) as [client|] eqn:Hclient; [|reflexivity].
  unfold bind at 1. rewrite cacheGet_spec. cbv beta iota zeta. unfold fst.
  destruct (match secretsCache (fs w) !! path with
            | Some cached => _ | None => None end) as [v|]; [reflexivity|].
  unfold callDecryptKey. run.
  destruct (DecryptKey _ _ _ _ _) as [secret|e]; simpl; [|reflexivity].
  by rewrite Hclient.
Qed.

(** What [readSecret] returns does not depend on the log. *)
Lemma readSecret_result_log (now later : Z) (path : string) (w : World)
      (lines : list (string * list LogArg)) :
  (readSecret' now later path (mkWorld (fs w) (decryptCalls w) lines)).1
  = (readSecret' now later path w).1.
Proof.
  rewrite !readSecret_spec, !cacheGet_spec. simpl.
  destruct (parseSopsKeyPath path) as [keyPath|]; [|reflexivity].
  destruct (sopsClient (fs w)) as [client|]; [|reflexivity].
  destruct (match secretsCache (fs w) !! path with
            | Some cached => _ | None => None end) as [v|]; [reflexivity|].
  by destruct (DecryptKey _ _ _ _ _) as [secret|e].
Qed.

(** [Read] as a function of the world it starts in. *)
Lemma Read_spec (now later : Z) (path : string) (buff : list ascii)
      (ofst fh : Z) (w : World) :
  Read' now later path buff ofst fh w =
  let w0 := mkWorld (fs w) (decryptCalls w)
              (logged w ++ [("[Read] path=%s offset=%d size=%d",
                             [AStr path; AInt ofst;
                              AInt (Z.of_nat (length buff))])]) in
  if strings.HasPrefix path "/secrets/" then
    match readSecret' now later path w0 with
    | (Err e, w1) =>
        (Returns (EIO, buff),
         mkWorld (fs w1) (decryptCalls w1)
           (logged w1 ++ [("[Read] Error reading secret: %v", [AErr e])]))
    | (Ok secret, w1) =>
        let data := list_ascii_of_string secret in
        if (Z.of_nat (length data) <=? ofst)%Z then (Returns (0%Z, buff), w1)
        else if (ofst <? 0)%Z then (Panics, w1)
        else
          let n := Nat.min (length buff) (length data - Z.to_nat ofst) in
          (Returns (Z.of_nat n,
                    (take n (drop (Z.to_nat ofst) data) ++ drop n buff)%list),
           mkWorld (fs w1) (decryptCalls w1)
             (logged w1 ++ [("[Read] Returning %d bytes", [AInt (Z.of_nat n)])]))
    end
  else (Returns (ENOENT, buff), w0).
Proof.
  unfold Read, copy. unfold bind, ret, log_Printf. cbv zeta.
  destruct (strings.HasPrefix path "/secrets/"); simpl; [|reflexivity].
  destruct (readSecret _ _ _ _ _ _) as [[secret|e] w1]; [|reflexivity].
  destruct (_ <=? ofst)%Z; [reflexivity|].
  destruct (ofst <? 0)%Z; [reflexivity|].
  by rewrite length_drop.
Qed.

(** C6: when a read under "/secrets/" misses the cache and its call of
    [DecryptKey] fails, with whatever error, [Read] returns EIO (-5) and
    leaves the buffer alone; exactly one call of [DecryptKey] has been
    added to the calls made so far (no second attempt, even if a second
    one would succeed); and the filesystem object, cache table included,
    is the one the read started with. *)
Theorem Read_decrypt_failure_is_EIO
    (now later : Z) (path : string) (buff : list ascii) (ofst fh : Z)
    (w : World) (client : SopsClient) (keyPath : list string) (e : error) :
  strings.HasPrefix path "/secrets/" = true ->
  parseSopsKeyPath path = Some keyPath ->
  sopsClient (fs w) = Some client ->
  (cacheGet now path w).1 = None ->
  DecryptKey' (length (decryptCalls w)) (secretsWSLPath (fs w)) keyPath = Err e ->
  let out := Read' now later path buff ofst fh w in
  out.1 = Returns (EIO, buff)
  /\ decryptCalls out.2
     = (decryptCalls w ++ [(secretsWSLPath (fs w), keyPath)])%list
  /\ fs out.2 = fs w
  /\ secretsCache (fs out.2) = secretsCache (fs w).
Proof.
  intros Hprefix Hparse Hclient Hmiss Hfail out. subst out.
  rewrite Read_spec, Hprefix. cbv zeta.
  rewrite readSecret_spec, Hparse. simpl fs. rewrite Hclient.
  rewrite cacheGet_spec in *. simpl in Hmiss |- *. rewrite Hmiss.
  by rewrite Hfail.
Qed.

(** C5 (as amended): when the content of the file, cached or just
    decrypted, has [L] bytes, a read at an offset [>= L] returns 0 bytes
    and no error, and the buffer is untouched; a read at an offset
    [0 <= ofst < L] copies into the buffer the bytes of the whole content
    from [ofst] on, as many as the buffer holds, and returns their
    number. *)
Theorem Read_serves_content_from_offset
    (now later : Z) (path secret : string) (buff : list ascii) (ofst fh : Z)
    (w : World) :
  strings.HasPrefix path "/secrets/" = true ->
  (readSecret' now later path w).1 = Ok secret ->
  let data := list_ascii_of_string secret in
  let L := Z.of_nat (length data) in
  let n := Nat.min (length buff) (length data - Z.to_nat ofst) in
  ((L <= ofst)%Z ->
     (Read' now later path buff ofst fh w).1 = Returns (0%Z, buff))
  /\ ((0 <= ofst < L)%Z ->
     (Read' now later path buff ofst fh w).1
     = Returns (Z.of_nat n,
                (take n (drop (Z.to_nat ofst) data) ++ drop n buff)%list)).
Proof.
  intros Hprefix Hsecret data L n.
  rewrite Read_spec, Hprefix. cbv zeta.
  pose proof (readSecret_result_log now later path w
    (logged w ++ [("[Read] path=%s offset=%d size=%d",
                   [AStr path; AInt ofst; AInt (Z.of_nat (length buff))])])%list)
    as Hlogged.
  rewrite Hsecret in Hlogged. clear Hsecret. revert Hlogged.
  destruct (readSecret _ _ _ _ _ _) as [r w1]. simpl. intros ->.
  fold data. fold L. fold n.
  split; intros Hofst.
  - by assert ((L <=? ofst)%Z = true) as -> by (apply Z.leb_le; lia).
  - assert ((L <=? ofst)%Z = false) as -> by (apply Z.leb_gt; lia).
    by assert ((ofst <? 0)%Z = false) as -> by (apply Z.ltb_ge; lia).
Qed.

End ReadFacts.

Lemma Read_decrypt_failure_is_EIO_witness :
  let w := sampleWorld ∅ in
  let out := Read flakyDocument sampleSprintf 0 1 "/secrets/api/github" [] 0 0 w in
  DecryptKey flakyDocument sampleSprintf 0 "secrets.yaml" ["api"; "github"]
  = Err (ErrLibrary "sops decrypt failed: context deadline exceeded")
  /\ DecryptKey flakyDocument sampleSprintf 1 "secrets.yaml" ["api"; "github"]
     = Ok "token"
  /\ out.1 = Returns (EIO, [])
  /\ decryptCalls out.2 = [("secrets.yaml", ["api"; "github"])]
  /\ secretsCache (fs out.2) = ∅.
Proof.
  intros w out.
  split; [reflexivity|]. split; [reflexivity|].
  destruct (Read_decrypt_failure_is_EIO flakyDocument sampleSprintf
              0 1 "/secrets/api/github" [] 0 0 w sampleClient ["api"; "github"]
              (ErrLibrary "sops decrypt failed: context deadline exceeded")
              eq_refl eq_refl eq_refl eq_refl eq_refl)
    as (Hcode & Hcalls & _ & Hcache).
  split; [exact Hcode|]. split; [exact Hcalls|exact Hcache].
Defined.

Lemma Read_serves_content_from_offset_witness :
  let w := sampleWorld {[ "/secrets/api/github" := mkCachedSecret "token" 0 ]} in
  let buff := ["_"; "_"; "_"]%char in
  (readSecret steadyDocument sampleSprintf 1 2 "/secrets/api/github" w).1 = Ok "token"
  /\ (Read steadyDocument sampleSprintf 1 2 "/secrets/api/github" buff 5 0 w).1
     = Returns (0%Z, buff)
  /\ (Read steadyDocument sampleSprintf 1 2 "/secrets/api/github" buff 1 0 w).1
     = Returns (3%Z, ["o"; "k"; "e"]%char).
Proof.
  intros w buff.
  split; [reflexivity|]. split.
  - apply (proj1 (Read_serves_content_from_offset steadyDocument sampleSprintf
                    1 2 "/secrets/api/github" "token" buff 5 0 w eq_refl eq_refl)).
    simpl. lia.
  - apply (proj2 (Read_serves_content_from_offset steadyDocument sampleSprintf
                    1 2 "/secrets/api/github" "token" buff 1 0 w eq_refl eq_refl)).
    simpl. lia.
Defined.

(* ===================================================================== *)
(** ** The callbacks that only look                                       *)
(* ===================================================================== *)

(** C9: attribute query, file open, directory open, directory list and the
    two close operations make no call to [DecryptKey] and leave the cache
    table as it was (no entry added, overwritten or removed), for every
    path and every world; they only write log lines. *)
Theorem lookup_callbacks_leave_cache_and_decrypt
    (path : string) (stat : Stat_t) (fh flags ofst : Z) (w : World) :
  untouched w (Getattr path stat fh w).2
  /\ untouched w (Open path flags w).2
  /\ untouched w (Opendir path w).2
  /\ untouched w (Readdir path ofst fh w).2
  /\ untouched w (Release path fh w).2
  /\ untouched w (Releasedir path fh w).2.
Proof.
  unfold untouched, Getattr, Open, Opendir, Readdir, Release, Releasedir.
  run. repeat split; repeat case_match; reflexivity.
Qed.

(** A negative offset reaches the slice expression and panics. *)
Example Read_negative_offset_panics :
  (Read steadyDocument sampleSprintf 7 9 "/secrets/api/github"
        ["_"; "_"]%char (-1) 0 (sampleWorld ∅)).1 = Panics.
Proof. reflexivity. Qed.

(** C5 (as stated) fails: not every offset below the length of the
    content is served; at the offset -1 the slice expression
    [data[ofst:]] panics and [Read] does not return. *)
Lemma Read_below_length_not_always_served :
  (readSecret steadyDocument sampleSprintf 7 9 "/secrets/api/github"
              (sampleWorld ∅)).1 = Ok "token"
  /\ (Read steadyDocument sampleSprintf 7 9 "/secrets/api/github"
            ["_"; "_"]%char (-1) 0 (sampleWorld ∅)).1 = Panics
  /\ ~ servesEveryOffsetBelow steadyDocument sampleSprintf 7 9
        "/secrets/api/github" ["_"; "_"]%char 0 (sampleWorld ∅) "token".
Proof.
  split; [reflexivity|]. split; [reflexivity|].
  intros H. destruct (H (-1)%Z) as (n & buff' & Hread); [simpl; lia|].
  discriminate Hread.
Qed.

(** Two reads one second apart make one call of [DecryptKey]; a third
    read after the TTL makes a second call. *)
Example Read_twice_then_after_TTL :
  let second : Z := 1000000000%Z in
  let read (now : Z) (w : World) :=
    Read steadyDocument sampleSprintf now now "/secrets/api/github"
         ["_"; "_"; "_"; "_"; "_"]%char 0 0 w in
  let r1 := read 0%Z (sampleWorld ∅) in
  let r2 := read second r1.2 in
  let r3 := read (secretCacheTTL + second)%Z r2.2 in
  r1.1 = r2.1
  /\ length (decryptCalls r1.2) = 1%nat
  /\ length (decryptCalls r2.2) = 1%nat
  /\ length (decryptCalls r3.2) = 2%nat.
Proof. repeat split; reflexivity. Qed.

(** By contrast with the callbacks above, [Read] does both on a miss. *)
Example Read_calls_decrypt_and_stores :
  let out := Read steadyDocument sampleSprintf 7 9 "/secrets/api/github"
                  ["_"; "_"; "_"; "_"; "_"; "_"]%char 0 0 (sampleWorld ∅) in
  out.1 = Returns (5%Z, ["t"; "o"; "k"; "e"; "n"; "_"]%char)
  /\ decryptCalls out.2 = [("secrets.yaml", ["api"; "github"])]
  /\ secretsCache (fs out.2) !! "/secrets/api/github"
     = Some (mkCachedSecret "token" 9).
Proof. repeat split; reflexivity. Qed.

(* ===================================================================== *)
(** ** The structure of the secrets file                                  *)
(* ===================================================================== *)

(** C8: whenever the secrets file is read and parsed into a root mapping,
    [GetSecretsStructure] returns that mapping without the key "sops" and
    with every other top-level key as parsed, and
    [refreshSecretsStructure] installs exactly this mapping as the secret
    tree. *)
Theorem GetSecretsStructure_excludes_sops
    (os_ReadFile : string -> result string)
    (yaml_Unmarshal : string -> result (gmap string Value))
    (w : World) (data : string) (sopsFile : gmap string Value) :
  os_ReadFile (secretsWSLPath (fs w)) = Ok data ->
  yaml_Unmarshal data = Ok sopsFile ->
  exists structure : gmap string Value,
    (GetSecretsStructure os_ReadFile yaml_Unmarshal (secretsWSLPath (fs w)) w).1
    = Ok structure
    /\ structure !! "sops" = None
    /\ (forall k : string, k <> "sops" -> structure !! k = sopsFile !! k)
    /\ (refreshSecretsStructure os_ReadFile yaml_Unmarshal w).1 = None
    /\ secretsTree (fs (refreshSecretsStructure os_ReadFile yaml_Unmarshal w).2)
       = structure.
Proof.
  intros Hread Hparse. exists (delete "sops" sopsFile).
  unfold refreshSecretsStructure, GetSecretsStructure. run.
  rewrite Hread, Hparse. simpl.
  repeat split.
  - apply lookup_delete_eq.
  - intros k Hk. by apply lookup_delete_ne.
Qed.

Lemma GetSecretsStructure_excludes_sops_witness :
  let w := mkWorld (mkSopsFS (Some sampleClient) "secrets.yaml" ∅ ∅) [] [] in
  is_Some (<[ "sops" := VMap {[ "version" := VOther "3.8.1" ]} ]> sampleTree !! "sops")
  /\ exists structure : gmap string Value,
       (GetSecretsStructure sampleReadFile sampleUnmarshal "secrets.yaml" w).1
       = Ok structure
       /\ structure !! "sops" = None
       /\ (forall k : string, k <> "sops" ->
             structure !! k
             = <[ "sops" := VMap {[ "version" := VOther "3.8.1" ]} ]> sampleTree !! k)
       /\ (refreshSecretsStructure sampleReadFile sampleUnmarshal w).1 = None
       /\ secretsTree (fs (refreshSecretsStructure sampleReadFile sampleUnmarshal w).2)
          = structure.
Proof.
  intros w. split; [rewrite lookup_insert_eq; eauto|].
  exact (GetSecretsStructure_excludes_sops sampleReadFile sampleUnmarshal w
           _ _ eq_refl eq_refl).
Defined.

(* ===================================================================== *)
(** ** Empty segments                                                     *)
(* ===================================================================== *)

Lemma noEmptyKeys_child (m : gmap string Value) (k : string) (v : Value) :
  noEmptyKeys (VMap m) -> m !! k = Some v -> noEmptyKeys v.
Proof.
  intros Hroot Hk keyPath m' Hnav. apply (Hroot (k :: keyPath)).
  simpl. by rewrite Hk.
Qed.

(** A key path with an empty segment leads nowhere in such a tree. *)
Lemma navigate_empty_segment (keyPath : list string) (root : Value) :
  noEmptyKeys root -> "" ∈ keyPath -> navigate root keyPath = None.
Proof.
  revert root. induction keyPath as [|k rest IH]; intros root Hroot Hin.
  - by apply elem_of_nil in Hin.
  - simpl. destruct root as [m| |]; [|reflexivity..].
    destruct (m !! k) as [v|] eqn:Hk; [|reflexivity].
    apply elem_of_cons in Hin as [<-|Hin].
    + rewrite (Hroot [] m eq_refl) in Hk. discriminate.
    + apply IH; [|done]. by eapply noEmptyKeys_child.
Qed.

(** C10 (as amended): an empty segment does not make derivation fail:
    "/secrets/" derives [""] and "/secrets//a" derives ["", "a"].  In a
    tree none of whose mappings has the empty string as a key, a derived
    key path with an empty segment resolves to nothing, and the four
    callbacks that resolve the path in the tree (attribute query, file
    open, directory open, directory list) return ENOENT.  (File read does
    not look at the tree.) *)
Theorem empty_segment_resolves_to_ENOENT
    (w : World) (path : string) (keys : list string)
    (stat : Stat_t) (fh flags ofst : Z) :
  parseSopsKeyPath "/secrets/" = Some [""]
  /\ parseSopsKeyPath "/secrets//a" = Some [""; "a"]
  /\ (noEmptyKeys (VMap (secretsTree (fs w))) ->
      parseSopsKeyPath path = Some keys -> "" ∈ keys ->
      (navigateToPath keys w).1 = None
      /\ (Getattr path stat fh w).1 = (ENOENT, stat)
      /\ (Open path flags w).1 = (ENOENT, 0%Z)
      /\ (Opendir path w).1 = (ENOENT, 0%Z)
      /\ (Readdir path ofst fh w).1 = (ENOENT, [(".", None); ("..", None)])).
Proof.
  split; [reflexivity|]. split; [reflexivity|].
  intros Htree Hparse Hin.
  pose proof (navigate_empty_segment keys _ Htree Hin) as Hnav.
  assert (String.eqb path "/" = false) as Hroot.
  { apply String.eqb_neq. intros ->. discriminate. }
  assert (String.eqb path "/secrets" = false) as Hsecrets.
  { apply String.eqb_neq. intros ->. discriminate. }
  unfold Getattr, Open, Opendir, Readdir. run.
  rewrite Hroot, Hsecrets, Hparse, Hnav. simpl.
  repeat split;
    destruct (strings.HasPrefix path "/secrets/"); simpl; rewrite ?Hnav; reflexivity.
Qed.

Lemma sampleTree_noEmptyKeys : noEmptyKeys (VMap sampleTree).
Proof.
  intros keyPath m. unfold sampleTree.
  destruct keyPath as [|k1 [|k2 [|k3 rest]]]; simpl.
  - intros [= <-]. reflexivity.
  - destruct (decide (k1 = "api")) as [->|Hne].
    + rewrite lookup_singleton_eq. intros [= <-]. reflexivity.
    + by rewrite lookup_singleton_ne.
  - destruct (decide (k1 = "api")) as [->|Hne].
    + rewrite lookup_singleton_eq.
      destruct (decide (k2 = "github")) as [->|Hne2].
      * by rewrite lookup_singleton_eq.
      * by rewrite lookup_singleton_ne.
    + by rewrite lookup_singleton_ne.
  - destruct (decide (k1 = "api")) as [->|Hne].
    + rewrite lookup_singleton_eq.
      destruct (decide (k2 = "github")) as [->|Hne2].
      * by rewrite lookup_singleton_eq.
      * by rewrite lookup_singleton_ne.
    + by rewrite lookup_singleton_ne.
Qed.

Lemma empty_segment_resolves_to_ENOENT_witness :
  parseSopsKeyPath "/secrets//a" = Some [""; "a"]
  /\ (Getattr "/secrets//a" (mkStat 0 0) 0 (sampleWorld ∅)).1 = (ENOENT, mkStat 0 0)
  /\ (Open "/secrets//a" 0 (sampleWorld ∅)).1 = (ENOENT, 0%Z).
Proof.
  split; [reflexivity|].
  destruct (proj2 (proj2 (empty_segment_resolves_to_ENOENT
              (sampleWorld ∅) "/secrets//a" [""; "a"] (mkStat 0 0) 0 0 0))
              sampleTree_noEmptyKeys eq_refl) as (_ & Hattr & Hopen & _).
  - apply elem_of_cons. by left.
  - split; [exact Hattr|exact Hopen].
Defined.

(** C10 (as stated) fails: in a tree without empty keys, a file read of
    "/secrets/" is answered with EIO (the decryption finds no key ""), not
    with ENOENT. *)
Lemma Read_empty_segment_is_not_ENOENT :
  noEmptyKeys (VMap (secretsTree (fs (sampleWorld ∅))))
  /\ parseSopsKeyPath "/secrets/" = Some [""]
  /\ (Read steadyDocument sampleSprintf 0 1 "/secrets/" [] 0 0 (sampleWorld ∅)).1
     = Returns (EIO, [])
  /\ ~ everyOperationNotFound steadyDocument sampleSprintf (sampleWorld ∅) "/secrets/".
Proof.
  split; [exact sampleTree_noEmptyKeys|].
  split; [reflexivity|]. split; [reflexivity|].
  intros H.
  destruct (H 0%Z 1%Z (mkStat 0 0) 0%Z 0%Z 0%Z []) as (_ & _ & _ & _ & buff' & Hread).
  discriminate Hread.
Qed.

(* ===================================================================== *)
(** ** More on strings and path derivation                                *)
(* ===================================================================== *)

Lemma append_assoc (a b c : string) : (a +:+ b) +:+ c = a +:+ (b +:+ c).
Proof.
  induction a as [|x a IH]; [reflexivity|].
  by rewrite !append_String, IH.
Qed.

Lemma sliceTo_append (p s : string) :
  strings.sliceTo (String.length p) (p +:+ s) = p.
Proof.
  induction p as [|x p IH]; [reflexivity|].
  rewrite append_String. simpl. by rewrite IH.
Qed.

Lemma sliceFrom_append (p s : string) :
  strings.sliceFrom (String.length p) (p +:+ s) = s.
Proof.
  induction p as [|x p IH]; [reflexivity|].
  rewrite append_String. simpl. by rewrite IH.
Qed.

Lemma length_append (a b : string) :
  String.length (a +:+ b) = (String.length a + String.length b)%nat.
Proof.
  induction a as [|x a IH]; [reflexivity|].
  rewrite append_String. simpl. by rewrite IH.
Qed.

Lemma HasPrefix_append (p s : string) : strings.HasPrefix (p +:+ s) p = true.
Proof.
  unfold strings.HasPrefix. rewrite sliceTo_append, String.eqb_refl, length_append.
  rewrite andb_true_r. apply Nat.leb_le. lia.
Qed.

Lemma TrimPrefix_append (p s : string) : strings.TrimPrefix (p +:+ s) p = s.
Proof.
  unfold strings.TrimPrefix. by rewrite HasPrefix_append, sliceFrom_append.
Qed.

(** [Split] and concatenation around one separator. *)
Lemma Split_append (a b : string) (sep : ascii) :
  strings.Split (a +:+ String sep b) sep
  = (strings.Split a sep ++ strings.Split b sep)%list.
Proof.
  induction a as [|x a IH].
  - change ("" +:+ String sep b) with (String sep b). simpl.
    by rewrite Ascii.eqb_refl.
  - rewrite append_String. simpl. rewrite IH.
    destruct (Ascii.eqb x sep); [reflexivity|].
    pose proof (Split_length a sep) as Hlen.
    destruct (strings.Split a sep); [simpl in Hlen; lia|reflexivity].
Qed.

Lemma Split_without_separator (s : string) (sep : ascii) :
  containsByte sep s = false -> strings.Split s sep = [s].
Proof.
  induction s as [|x s IH]; [reflexivity|].
  simpl. intros [Hx Hs]%orb_false_elim. by rewrite Hx, IH.
Qed.

Lemma Split_parts_without_separator (s : string) (sep : ascii) :
  Forall (fun part => containsByte sep part = false) (strings.Split s sep).
Proof.
  induction s as [|x s IH]; simpl; [by repeat constructor|].
  destruct (Ascii.eqb x sep) eqn:Hx; [by constructor|].
  destruct (strings.Split s sep) as [|w ws]; [by repeat constructor; simpl; rewrite Hx|].
  inversion_clear IH as [|? ? Hw Hws]. constructor; [|done].
  simpl. by rewrite Hx, Hw.
Qed.

Lemma sliceTo_containsByte (c : ascii) (n : nat) (s : string) :
  containsByte c s = false -> containsByte c (strings.sliceTo n s) = false.
Proof.
  revert s. induction n as [|n IH]; intros [|x s]; simpl; try done.
  intros [Hx Hs]%orb_false_elim. by rewrite Hx, IH.
Qed.

Lemma TrimSuffix_containsByte (c : ascii) (s suffix : string) :
  containsByte c s = false -> containsByte c (strings.TrimSuffix s suffix) = false.
Proof.
  intros H. unfold strings.TrimSuffix.
  destruct (strings.HasSuffix s suffix); [by apply sliceTo_containsByte|done].
Qed.

Lemma Split_joinPath (keys : list string) :
  keys <> [] ->
  Forall (fun k => containsByte slash k = false) keys ->
  strings.Split (joinPath keys) slash = keys.
Proof.
  induction keys as [|k rest IH]; [done|]. intros _ Hfree.
  inversion_clear Hfree as [|? ? Hk Hrest].
  destruct rest as [|k' rest].
  - simpl. by apply Split_without_separator.
  - change (joinPath (k :: k' :: rest)) with (k +:+ String slash (joinPath (k' :: rest))).
    rewrite Split_append, Split_without_separator by done.
    by rewrite IH.
Qed.

(** X1: no derived key contains the separator "/". *)
Theorem parseSopsKeyPath_keys_have_no_slash (path : string) (keys : list string) :
  parseSopsKeyPath path = Some keys ->
  Forall (fun k => containsByte slash k = false) keys.
Proof.
  intros (segs & Hparts & _ & ->)%parse_Some_inv.
  pose proof (Split_parts_without_separator (strings.TrimPrefix path "/") slash)
    as Hfree.
  fold (pathParts path) in Hfree. rewrite Hparts in Hfree.
  inversion_clear Hfree as [|? ? _ Hsegs].
  apply Forall_fmap. eapply Forall_impl; [exact Hsegs|].
  intros seg Hseg. unfold trimKey. simpl. by do 2 apply TrimSuffix_containsByte.
Qed.

Lemma parseSopsKeyPath_keys_have_no_slash_witness :
  parseSopsKeyPath "/secrets/a.yaml/b" = Some ["a"; "b"]
  /\ Forall (fun k => containsByte slash k = false) ["a"; "b"].
Proof.
  split; [reflexivity|].
  apply (parseSopsKeyPath_keys_have_no_slash "/secrets/a.yaml/b"). reflexivity.
Defined.

(** X2: every non-empty key path whose keys contain no "/" and end in
    neither recognized suffix is derived from the path that joins the keys
    with "/" under "/secrets/". *)
Theorem parseSopsKeyPath_of_joined_keys (keys : list string) :
  keys <> [] ->
  Forall (fun k => containsByte slash k = false /\ trimKey k = k) keys ->
  parseSopsKeyPath ("/secrets/" +:+ joinPath keys) = Some keys.
Proof.
  intros Hne Hkeys.
  rewrite parse_under_secrets by apply HasPrefix_append.
  change 9%nat with (String.length "/secrets/"). rewrite sliceFrom_append.
  rewrite Split_joinPath; [|done|by eapply Forall_impl; [exact Hkeys|intros ? []]].
  f_equal. clear Hne. induction Hkeys as [|k rest [_ Hk] _ IH]; [reflexivity|].
  simpl. by rewrite Hk, IH.
Qed.

Lemma parseSopsKeyPath_of_joined_keys_witness :
  parseSopsKeyPath ("/secrets/" +:+ joinPath ["postgres"; "admin_pass"])
  = Some ["postgres"; "admin_pass"].
Proof.
  apply parseSopsKeyPath_of_joined_keys; [discriminate|].
  repeat constructor.
Defined.

(** X3: derivation removes one leading "/" and no more: a path that does
    not start with "/" derives what the same path after a "/" derives, and
    a path that starts with two "/" is invalid. *)
Theorem parseSopsKeyPath_leading_slash (s : string) :
  (strings.HasPrefix s "/" = false ->
     parseSopsKeyPath ("/" +:+ s) = parseSopsKeyPath s)
  /\ parseSopsKeyPath ("//" +:+ s) = None.
Proof.
  split.
  - intros Hrel. unfold parseSopsKeyPath, pathParts.
    rewrite TrimPrefix_append. unfold strings.TrimPrefix.
    by rewrite Hrel.
  - unfold parseSopsKeyPath, pathParts.
    change ("//" +:+ s) with ("/" +:+ String slash s).
    rewrite TrimPrefix_append. simpl.
    by rewrite ?orb_true_r.
Qed.

Lemma parseSopsKeyPath_leading_slash_witness :
  strings.HasPrefix "secrets/a" "/" = false
  /\ parseSopsKeyPath ("/" +:+ "secrets/a") = parseSopsKeyPath "secrets/a".
Proof.
  split; [reflexivity|].
  apply (proj1 (parseSopsKeyPath_leading_slash "secrets/a")). reflexivity.
Defined.

(* ===================================================================== *)
(** ** More on the secret tree                                            *)
(* ===================================================================== *)

Lemma navigate_app (root : Value) (p q : list string) :
  navigate root (p ++ q)
  = match navigate root p with
    | Some v => navigate v q
    | None => None
    end.
Proof.
  revert root. induction p as [|k p IH]; intros root; [reflexivity|].
  simpl. destruct root as [m| |]; try reflexivity.
  destruct (m !! k); [apply IH|reflexivity].
Qed.

(** X4: resolution goes segment by segment and fails closed: a key path
    [p ++ q] resolves to what [q] resolves to from the node of [p], and
    when [q] is not empty it resolves only if [p] resolves to a mapping
    (nothing is found below a leaf or below a missing key). *)
Theorem navigate_stepwise_and_closed (root : Value) (p q : list string) :
  navigate root (p ++ q) = (navigate root p ≫= fun v => navigate v q)
  /\ (q <> [] -> is_Some (navigate root (p ++ q)) ->
      exists m, navigate root p = Some (VMap m)).
Proof.
  rewrite navigate_app. split.
  - by destruct (navigate root p).
  - intros Hq [v Hv]. destruct (navigate root p) as [node|]; [|discriminate].
    destruct q as [|k q]; [done|].
    destruct node as [m| |]; [by exists m|discriminate..].
Qed.

Lemma navigate_stepwise_and_closed_witness :
  is_Some (navigate (VMap sampleTree) (["api"] ++ ["github"]))
  /\ exists m, navigate (VMap sampleTree) ["api"] = Some (VMap m).
Proof.
  assert (is_Some (navigate (VMap sampleTree) (["api"] ++ ["github"]))) as Hres
    by (vm_compute; eauto).
  split; [exact Hres|].
  apply (proj2 (navigate_stepwise_and_closed (VMap sampleTree) ["api"] ["github"]));
    [discriminate|exact Hres].
Defined.

(* ===================================================================== *)
(** ** How the resolving callbacks agree                                  *)
(* ===================================================================== *)

Lemma under_secrets_not_roots (path : string) :
  strings.HasPrefix path "/secrets/" = true ->
  String.eqb path "/" = false /\ String.eqb path "/secrets" = false.
Proof.
  intros H%HasPrefix_split.
  split; apply String.eqb_neq; intros Heq; rewrite Heq in H;
    apply (f_equal String.length) in H; rewrite length_append in H;
    simpl in H; lia.
Qed.

(** The four resolving callbacks on a path under "/secrets/". *)
Lemma callbacks_resolved
    (path : string) (keys : list string) (stat : Stat_t) (fh flags ofst : Z)
    (w : World) :
  strings.HasPrefix path "/secrets/" = true ->
  parseSopsKeyPath path = Some keys ->
  ((Getattr path stat fh w).1, (Open path flags w).1, (Opendir path w).1,
   (Readdir path ofst fh w).1.1)
  = answers (classify (navigate (VMap (secretsTree (fs w))) keys)) stat.
Proof.
  intros Hprefix Hparse.
  destruct (under_secrets_not_roots path Hprefix) as [Hroot Hsecrets].
  unfold Getattr, Open, Opendir, Readdir. run.
  rewrite Hroot, Hsecrets, Hprefix, Hparse. simpl.
  destruct (navigate (VMap (secretsTree (fs w))) keys) as [[m| |]|]; reflexivity.
Qed.

Lemma Readdir_spec (path : string) (ofst fh : Z) (w : World) :
  (Readdir path ofst fh w).1 =
  let dots := [(".", None); ("..", None)] in
  if String.eqb path "/"
  then (0%Z, (dots ++ [("secrets", Some (mkStat dirMode 0))])%list)
  else if String.eqb path "/secrets"
  then (0%Z, (dots ++ fillChildren (secretsTree (fs w)))%list)
  else if strings.HasPrefix path "/secrets/" then
    match parseSopsKeyPath path with
    | None => (ENOENT, dots)
    | Some keys =>
        match navigate (VMap (secretsTree (fs w))) keys with
        | None => (ENOENT, dots)
        | Some (VMap m) => (0%Z, (dots ++ fillChildren m)%list)
        | Some _ => (ENOTDIR, dots)
        end
    end
  else (ENOENT, dots).
Proof.
  unfold Readdir. run.
  destruct (String.eqb path "/"); [reflexivity|].
  destruct (String.eqb path "/secrets"); [reflexivity|].
  destruct (strings.HasPrefix path "/secrets/"); simpl; [|reflexivity].
  destruct (parseSopsKeyPath path) as [keys|]; [|reflexivity]. simpl.
  destruct (navigate (VMap (secretsTree (fs w))) keys) as [[m| |]|]; reflexivity.
Qed.

Lemma elem_of_fillChildren (m : gmap string Value) (name : string)
      (entry : option Stat_t) :
  (name, entry) ∈ fillChildren m
  <-> exists v, m !! name = Some v
      /\ entry = Some (mkStat (if isMap v then dirMode else fileMode) 0).
Proof.
  unfold fillChildren. rewrite list_elem_of_In, in_map_iff. split.
  - intros ([k v] & [= <- <-] & Hin%list_elem_of_In%elem_of_map_to_list).
    by exists v.
  - intros (v & Hv & ->). exists (name, v). split; [reflexivity|].
    by apply list_elem_of_In, elem_of_map_to_list.
Qed.

Lemma fillChildren_names (m : gmap string Value) :
  (fillChildren m).*1 = (map_to_list m).*1.
Proof.
  unfold fillChildren. induction (map_to_list m) as [|[k v] l IH]; [reflexivity|].
  simpl. f_equal. exact IH.
Qed.

(** X5: for every path under "/secrets/" the key path is derived and the
    node it resolves to decides the four resolving callbacks together: a
    mapping gives directory attributes, EISDIR from Open and success from
    Opendir and Readdir; any other node gives file attributes with size
    4096, success from Open and ENOTDIR from Opendir and Readdir; no node
    gives ENOENT from all four. *)
Theorem resolving_callbacks_agree
    (path : string) (stat : Stat_t) (fh flags ofst : Z) (w : World) :
  strings.HasPrefix path "/secrets/" = true ->
  exists keys : list string,
    parseSopsKeyPath path = Some keys
    /\ ((Getattr path stat fh w).1, (Open path flags w).1, (Opendir path w).1,
        (Readdir path ofst fh w).1.1)
       = answers (classify (navigate (VMap (secretsTree (fs w))) keys)) stat.
Proof.
  intros Hprefix. pose proof (parse_under_secrets path Hprefix) as Hparse.
  eexists. split; [exact Hparse|]. by apply callbacks_resolved.
Qed.

Lemma resolving_callbacks_agree_witness :
  strings.HasPrefix "/secrets/api/github" "/secrets/" = true
  /\ exists keys : list string,
       parseSopsKeyPath "/secrets/api/github" = Some keys
       /\ ((Getattr "/secrets/api/github" (mkStat 0 0) 0 (sampleWorld ∅)).1,
           (Open "/secrets/api/github" 0 (sampleWorld ∅)).1,
           (Opendir "/secrets/api/github" (sampleWorld ∅)).1,
           (Readdir "/secrets/api/github" 0 0 (sampleWorld ∅)).1.1)
          = answers (classify (navigate (VMap (secretsTree (fs (sampleWorld ∅)))) keys))
                    (mkStat 0 0).
Proof.
  split; [reflexivity|].
  apply (resolving_callbacks_agree "/secrets/api/github"). reflexivity.
Defined.

(** X6: for every path whatsoever, Opendir succeeds exactly when Readdir
    succeeds and exactly when Getattr reports a directory; and when Open
    succeeds, Getattr reports a regular file of size 4096 and Opendir
    answers ENOTDIR. *)
Theorem directory_callbacks_agree
    (path : string) (stat : Stat_t) (fh flags ofst : Z) (w : World) :
  ((Opendir path w).1 = (0%Z, 0%Z) <-> (Readdir path ofst fh w).1.1 = 0%Z)
  /\ ((Opendir path w).1 = (0%Z, 0%Z)
      <-> (Getattr path stat fh w).1 = (0%Z, mkStat dirMode (Size stat)))
  /\ ((Open path flags w).1 = (0%Z, 0%Z) ->
      (Getattr path stat fh w).1 = (0%Z, mkStat fileMode 4096)
      /\ (Opendir path w).1 = (ENOTDIR, 0%Z)).
Proof.
  destruct (strings.HasPrefix path "/secrets/") eqn:Hprefix.
  - pose proof (callbacks_resolved path _ stat fh flags ofst w Hprefix
                  (parse_under_secrets path Hprefix)) as Hall.
    set (keys := map trimKey (strings.Split (strings.sliceFrom 9 path) slash)) in *.
    destruct (classify (navigate (VMap (secretsTree (fs w))) keys));
      simpl in Hall; injection Hall as -> -> -> ->;
      repeat split; intros; try done.
  - unfold Getattr, Open, Opendir, Readdir. run. rewrite Hprefix. simpl.
    destruct (String.eqb path "/"); simpl;
      [repeat split; intros; done|].
    destruct (String.eqb path "/secrets"); simpl;
      repeat split; intros; done.
Qed.

(** A successful [Readdir] lists the children of a mapping of the tree. *)
Lemma Readdir_ok_inv (dir : string) (ofst fh : Z) (w : World) :
  (Readdir dir ofst fh w).1.1 = 0%Z ->
  dir <> "/" ->
  exists (keys : list string) (m : gmap string Value),
    (dir = "/secrets" /\ keys = []
     \/ strings.HasPrefix dir "/secrets/" = true /\ parseSopsKeyPath dir = Some keys)
    /\ navigate (VMap (secretsTree (fs w))) keys = Some (VMap m)
    /\ (Readdir dir ofst fh w).1.2
       = ([(".", None); ("..", None)] ++ fillChildren m)%list.
Proof.
  rewrite Readdir_spec. cbv zeta. intros Hok Hroot%String.eqb_neq.
  rewrite Hroot in *.
  destruct (String.eqb dir "/secrets") eqn:Hsecrets.
  - apply String.eqb_eq in Hsecrets as ->.
    exists [], (secretsTree (fs w)). split; [by left|]. by split.
  - destruct (strings.HasPrefix dir "/secrets/") eqn:Hprefix; [|discriminate].
    destruct (parseSopsKeyPath dir) as [keys|]; [|discriminate].
    destruct (navigate (VMap (secretsTree (fs w))) keys) as [[m| |]|] eqn:Hnav;
      try discriminate.
    exists keys, m. split; [by right|]. by split.
Qed.

(** The path of an entry of a directory of the tree derives the key path
    of the directory followed by the trimmed name. *)
Lemma child_parse (dir name : string) (keys : list string) :
  (dir = "/secrets" /\ keys = []
   \/ strings.HasPrefix dir "/secrets/" = true /\ parseSopsKeyPath dir = Some keys) ->
  containsByte slash name = false ->
  strings.HasPrefix (dir +:+ String slash name) "/secrets/" = true
  /\ parseSopsKeyPath (dir +:+ String slash name)
     = Some (keys ++ [trimKey name])%list.
Proof.
  intros Hdir Hname.
  assert (exists r segs, dir +:+ String slash name = "/secrets/" +:+ r
                         /\ strings.Split r slash = (segs ++ [name])%list
                         /\ keys = map trimKey segs) as (r & segs & -> & Hsplit & ->).
  { destruct Hdir as [[-> ->]|[Hprefix Hparse]].
    - exists name, []. split; [reflexivity|]. split; [|reflexivity].
      by apply Split_without_separator.
    - pose proof (parse_under_secrets dir Hprefix) as Hparse'.
      rewrite Hparse in Hparse'. injection Hparse' as ->.
      apply HasPrefix_split in Hprefix.
      change (String.length "/secrets/") with 9%nat in Hprefix.
      set (r := strings.sliceFrom 9 dir) in *. clearbody r. subst dir.
      exists (r +:+ String slash name), (strings.Split r slash).
      rewrite append_assoc. split; [reflexivity|]. split; [|reflexivity].
      by rewrite Split_append, (Split_without_separator name). }
  split; [apply HasPrefix_append|].
  rewrite parse_under_secrets by apply HasPrefix_append.
  change 9%nat with (String.length "/secrets/").
  rewrite sliceFrom_append, Hsplit, map_app. reflexivity.
Qed.

(** [Getattr] on an entry of a listed directory of the tree looks up the
    trimmed name in the mapping that was listed. *)
Lemma Getattr_child (dir name : string) (keys : list string)
      (m : gmap string Value) (stat : Stat_t) (fh : Z) (w : World) :
  (dir = "/secrets" /\ keys = []
   \/ strings.HasPrefix dir "/secrets/" = true /\ parseSopsKeyPath dir = Some keys) ->
  navigate (VMap (secretsTree (fs w))) keys = Some (VMap m) ->
  containsByte slash name = false ->
  (Getattr (dir +:+ String slash name) stat fh w).1
  = (answers (classify (m !! trimKey name)) stat).1.1.1.
Proof.
  intros Hdir Hnav Hname.
  destruct (child_parse dir name keys Hdir Hname) as [Hprefix Hparse].
  pose proof (callbacks_resolved _ _ stat fh 0 0 w Hprefix Hparse) as Hall.
  rewrite navigate_app, Hnav in Hall. simpl in Hall.
  assert (match m !! trimKey name with Some v => Some v | None => None end
          = m !! trimKey name) as Hsame by (by destruct (m !! trimKey name)).
  rewrite Hsame in Hall. by rewrite <- Hall.
Qed.

(** X7: a successful directory list of "/secrets" or of a path under it
    passes to [fill], after "." and "..", exactly one entry for each key of
    the mapping the path resolves to (the tree itself for "/secrets", the
    node of the derived key path otherwise), none twice, with directory
    mode when the child is a mapping and file mode otherwise. *)
Theorem Readdir_lists_exactly_the_keys
    (dir : string) (ofst fh : Z) (w : World) :
  (Readdir dir ofst fh w).1.1 = 0%Z ->
  dir <> "/" ->
  exists (keys : list string) (m : gmap string Value)
         (entries : list (string * option Stat_t)),
    (dir = "/secrets" /\ keys = []
     \/ strings.HasPrefix dir "/secrets/" = true
        /\ parseSopsKeyPath dir = Some keys)
    /\ navigate (VMap (secretsTree (fs w))) keys = Some (VMap m)
    /\ (Readdir dir ofst fh w).1.2 = ([(".", None); ("..", None)] ++ entries)%list
    /\ NoDup entries.*1
    /\ forall (name : string) (entry : option Stat_t),
         (name, entry) ∈ entries
         <-> exists v, m !! name = Some v
             /\ entry = Some (mkStat (if isMap v then dirMode else fileMode) 0).
Proof.
  intros Hok Hroot.
  destruct (Readdir_ok_inv dir ofst fh w Hok Hroot) as (keys & m & Hdir & Hnav & Hlist).
  exists keys, m, (fillChildren m).
  split; [done|]. split; [done|]. split; [done|]. split.
  - rewrite fillChildren_names. apply NoDup_fst_map_to_list.
  - apply elem_of_fillChildren.
Qed.

Lemma Readdir_lists_exactly_the_keys_witness :
  (Readdir "/secrets/api" 0 0 (sampleWorld ∅)).1.1 = 0%Z
  /\ exists (keys : list string) (m : gmap string Value)
            (entries : list (string * option Stat_t)),
       ("/secrets/api" = "/secrets" /\ keys = []
        \/ strings.HasPrefix "/secrets/api" "/secrets/" = true
           /\ parseSopsKeyPath "/secrets/api" = Some keys)
       /\ navigate (VMap (secretsTree (fs (sampleWorld ∅)))) keys = Some (VMap m)
       /\ (Readdir "/secrets/api" 0 0 (sampleWorld ∅)).1.2
          = ([(".", None); ("..", None)] ++ entries)%list
       /\ NoDup entries.*1
       /\ forall (name : string) (entry : option Stat_t),
            (name, entry) ∈ entries
            <-> exists v, m !! name = Some v
                /\ entry = Some (mkStat (if isMap v then dirMode else fileMode) 0).
Proof.
  split; [reflexivity|].
  apply (Readdir_lists_exactly_the_keys "/secrets/api" 0 0 (sampleWorld ∅));
    [reflexivity|discriminate].
Defined.

(** X8: what a directory list shows, the attribute query confirms: for
    every entry that a successful [Readdir] passes to [fill] with a [stat]
    and whose name has no "/" and loses nothing to suffix stripping,
    [Getattr] on the path of the entry succeeds with the mode that was
    listed. *)
Theorem listed_entry_has_listed_mode
    (dir name : string) (st stat : Stat_t) (ofst fh fh' : Z) (w : World) :
  (Readdir dir ofst fh w).1.1 = 0%Z ->
  (name, Some st) ∈ (Readdir dir ofst fh w).1.2 ->
  containsByte slash name = false ->
  trimKey name = name ->
  (Getattr (childPath dir name) stat fh' w).1.1 = 0%Z
  /\ Mode (Getattr (childPath dir name) stat fh' w).1.2 = Mode st.
Proof.
  intros Hok Hin Hname Htrim. unfold childPath.
  destruct (String.eqb dir "/") eqn:Hroot.
  - apply String.eqb_eq in Hroot as ->.
    rewrite Readdir_spec in Hin. simpl in Hin.
    apply elem_of_cons in Hin as [?|Hin]; [done|].
    apply elem_of_cons in Hin as [?|Hin]; [done|].
    apply list_elem_of_singleton in Hin as [= -> ->]. by split.
  - apply String.eqb_neq in Hroot.
    destruct (Readdir_ok_inv dir ofst fh w Hok Hroot) as (keys & m & Hdir & Hnav & Hlist).
    rewrite Hlist in Hin.
    apply elem_of_cons in Hin as [?|Hin]; [done|].
    apply elem_of_cons in Hin as [?|Hin]; [done|].
    apply elem_of_fillChildren in Hin as (v & Hv & [= ->]).
    rewrite (Getattr_child dir name keys m stat fh' w Hdir Hnav Hname).
    rewrite Htrim, Hv. simpl. by destruct (isMap v).
Qed.

Lemma listed_entry_has_listed_mode_witness :
  ("github", Some (mkStat fileMode 0))
    ∈ (Readdir "/secrets/api" 0 0 (sampleWorld ∅)).1.2
  /\ Mode (Getattr (childPath "/secrets/api" "github") (mkStat 0 0) 0
                   (sampleWorld ∅)).1.2 = fileMode.
Proof.
  assert (("github", Some (mkStat fileMode 0))
          ∈ (Readdir "/secrets/api" 0 0 (sampleWorld ∅)).1.2) as Hin.
  { vm_compute. do 2 apply list_elem_of_further. apply list_elem_of_here. }
  split; [exact Hin|].
  exact (proj2 (listed_entry_has_listed_mode "/secrets/api" "github"
                  (mkStat fileMode 0) (mkStat 0 0) 0 0 0 (sampleWorld ∅)
                  eq_refl Hin eq_refl eq_refl)).
Defined.

(** X9: the attribute query strips suffixes from the name it is given, so
    an entry of a listed directory of the tree whose name has no "/" is
    not found under that name when its trimmed name is not a listed key:
    a key "k.yaml" that [Readdir] shows gives ENOENT in [Getattr] unless
    "k" is a key too. *)
Theorem listed_entry_with_suffix_not_found
    (dir name : string) (stat : Stat_t) (ofst fh fh' : Z) (w : World) :
  (Readdir dir ofst fh w).1.1 = 0%Z ->
  dir <> "/" ->
  containsByte slash name = false ->
  (forall st, (trimKey name, Some st) ∉ (Readdir dir ofst fh w).1.2) ->
  (Getattr (childPath dir name) stat fh' w).1 = (ENOENT, stat).
Proof.
  intros Hok Hroot Hname Habsent. unfold childPath.
  destruct (Readdir_ok_inv dir ofst fh w Hok Hroot) as (keys & m & Hdir & Hnav & Hlist).
  apply String.eqb_neq in Hroot. rewrite Hroot.
  rewrite (Getattr_child dir name keys m stat fh' w Hdir Hnav Hname).
  destruct (m !! trimKey name) as [v|] eqn:Hv; [|reflexivity].
  exfalso. apply (Habsent (mkStat (if isMap v then dirMode else fileMode) 0)).
  rewrite Hlist. do 2 apply list_elem_of_further.
  apply elem_of_fillChildren. by exists v.
Qed.

Lemma listed_entry_with_suffix_not_found_witness :
  ("config.yaml", Some (mkStat fileMode 0)) ∈ (Readdir "/secrets" 0 0 suffixWorld).1.2
  /\ (Getattr (childPath "/secrets" "config.yaml") (mkStat 0 0) 0 suffixWorld).1
     = (ENOENT, mkStat 0 0).
Proof.
  split.
  - vm_compute. do 2 apply list_elem_of_further. apply list_elem_of_here.
  - apply (listed_entry_with_suffix_not_found "/secrets" "config.yaml"
             (mkStat 0 0) 0 0 0 suffixWorld);
      [reflexivity|discriminate|reflexivity|].
    intros st Hin. vm_compute in Hin.
    repeat (apply elem_of_cons in Hin as [Hin|Hin]; [discriminate Hin|]).
    by apply elem_of_nil in Hin.
Defined.

(* ===================================================================== *)
(** ** More on the cache                                                  *)
(* ===================================================================== *)

(** X10: a sweep changes no later lookup: for every path, a lookup at an
    instant not before the sweep returns after the sweep what it would
    have returned without it. *)
Theorem sweepExpired_invisible_to_lookups
    (now later : Z) (path : string) (w : World) :
  (now <= later)%Z ->
  (cacheGet later path (sweepExpired now w).2).1 = (cacheGet later path w).1.
Proof.
  intros Hlater. rewrite !cacheGet_spec. cbv beta iota zeta. unfold fst.
  destruct (secretsCache (fs (sweepExpired now w).2) !! path) as [cached|] eqn:Hswept.
  - apply sweepExpired_lookup in Hswept as [-> _]. reflexivity.
  - destruct (secretsCache (fs w) !! path) as [cached|] eqn:Hbefore; [|reflexivity].
    assert ((Time_Sub later (timestamp cached) <? secretCacheTTL)%Z = false) as ->;
      [|reflexivity].
    apply Time_Sub_stale.
    destruct (decide (now - timestamp cached <= secretCacheTTL)%Z) as [Hkeep|Hdrop];
      [|lia].
    assert (secretsCache (fs (sweepExpired now w).2) !! path = Some cached) as Hkept
      by (by apply sweepExpired_lookup).
    congruence.
Qed.

Lemma sweepExpired_invisible_to_lookups_witness :
  let w := sampleWorld {[ "/secrets/api/github" := mkCachedSecret "token" 0 ]} in
  (300000000001 <= 300000000002)%Z
  /\ (cacheGet 300000000002 "/secrets/api/github" (sweepExpired 300000000001 w).2).1
     = (cacheGet 300000000002 "/secrets/api/github" w).1.
Proof.
  intros w.
  assert (300000000001 <= 300000000002)%Z as Hlater by lia.
  split; [exact Hlater|].
  exact (sweepExpired_invisible_to_lookups 300000000001 300000000002
           "/secrets/api/github" w Hlater).
Defined.

(** X11: after the cleanup loop has run for the ticks [ticks], in whatever
    order they come, the cache holds exactly the entries whose age was at
    most the TTL at every tick; the tree and the calls made to
    [DecryptKey] are as before. *)
Theorem cacheCleanupLoop_keeps_fresh_at_every_tick (ticks : list Z) (w : World) :
  let swept := (cacheCleanupLoop ticks w).2 in
  (forall (path : string) (cached : cachedSecret),
     secretsCache (fs swept) !! path = Some cached
     <-> secretsCache (fs w) !! path = Some cached
         /\ Forall (fun now => (now - timestamp cached <= secretCacheTTL)%Z) ticks)
  /\ secretsTree (fs swept) = secretsTree (fs w)
  /\ decryptCalls swept = decryptCalls w.
Proof.
  cbv zeta. revert w. induction ticks as [|now ticks IH]; intros w.
  - split; [|done]. intros path cached. simpl. split; [by intros ?|by intros []].
  - change (cacheCleanupLoop (now :: ticks) w).2
      with (cacheCleanupLoop ticks (sweepExpired now w).2).2.
    destruct (IH (sweepExpired now w).2) as (Hcache & -> & ->).
    split; [|done].
    intros path cached. rewrite Hcache, sweepExpired_lookup, Forall_cons.
    tauto.
Qed.

(* ===================================================================== *)
(** ** More on file read                                                  *)
(* ===================================================================== *)

Section MoreReadFacts.

Variable decryptDocument : nat -> string -> result Value.
Variable Sprintf_v : Value -> string.

Local Abbreviation readSecret' := (readSecret decryptDocument Sprintf_v).
Local Abbreviation Read' := (Read decryptDocument Sprintf_v).
Local Abbreviation DecryptKey' := (DecryptKey decryptDocument Sprintf_v).

(** What [Read] does to the filesystem object and to the calls, read off
    [readSecret]. *)
Lemma Read_world (now later : Z) (path : string) (buff : list ascii)
      (ofst fh : Z) (w : World) :
  strings.HasPrefix path "/secrets/" = true ->
  fs (Read' now later path buff ofst fh w).2 = fs (readSecret' now later path w).2
  /\ decryptCalls (Read' now later path buff ofst fh w).2
     = decryptCalls (readSecret' now later path w).2.
Proof.
  intros Hprefix. rewrite Read_spec, Hprefix. cbv zeta.
  rewrite !readSecret_spec, !cacheGet_spec. simpl.
  destruct (parseSopsKeyPath path) as [keyPath|]; [|done].
  destruct (sopsClient (fs w)) as [client|]; [|done].
  destruct (match secretsCache (fs w) !! path with
            | Some cached => _ | None => None end) as [v|].
  - simpl. destruct (_ <=? ofst)%Z; [done|]. by destruct (ofst <? 0)%Z.
  - destruct (DecryptKey _ _ _ _ _) as [secret|e]; [|done].
    simpl. destruct (_ <=? ofst)%Z; [done|]. by destruct (ofst <? 0)%Z.
Qed.

(** X12: when the filesystem has a client (the pointer is not nil), a
    read under "/secrets/" of a path whose cache entry is younger than the
    TTL is served from the cache: [readSecret] returns the cached value,
    [Read] makes no call to [DecryptKey] and leaves the filesystem object,
    cache included, as it was. *)
Theorem Read_hit_is_served_from_cache
    (now later : Z) (path : string) (buff : list ascii) (ofst fh : Z)
    (w : World) (client : SopsClient) (cached : cachedSecret) :
  strings.HasPrefix path "/secrets/" = true ->
  sopsClient (fs w) = Some client ->
  secretsCache (fs w) !! path = Some cached ->
  (now - timestamp cached < secretCacheTTL)%Z ->
  (readSecret' now later path w).1 = Ok (value cached)
  /\ decryptCalls (Read' now later path buff ofst fh w).2 = decryptCalls w
  /\ fs (Read' now later path buff ofst fh w).2 = fs w.
Proof.
  intros Hprefix Hclient Hentry Hfresh%Time_Sub_fresh.
  destruct (Read_world now later path buff ofst fh w Hprefix) as [-> ->].
  rewrite readSecret_spec, cacheGet_spec, (parse_under_secrets path Hprefix).
  simpl. by rewrite Hclient, Hentry, Hfresh.
Qed.

(** X13: after a read that missed the cache and decrypted [secret] at the
    instant [later], every read of the same path at an instant [now2] with
    [now2 - later < TTL] returns [secret] again and makes no further call
    to [DecryptKey]. *)
Theorem read_after_read_within_TTL
    (now later now2 later2 : Z) (path secret : string) (w : World) :
  (cacheGet now path w).1 = None ->
  (readSecret' now later path w).1 = Ok secret ->
  (now2 - later < secretCacheTTL)%Z ->
  let w1 := (readSecret' now later path w).2 in
  (readSecret' now2 later2 path w1).1 = Ok secret
  /\ decryptCalls (readSecret' now2 later2 path w1).2 = decryptCalls w1
  /\ length (decryptCalls w1) = S (length (decryptCalls w)).
Proof.
  intros Hmiss Hfirst Hfresh%Time_Sub_fresh w1. subst w1.
  pose proof (readSecret_spec decryptDocument Sprintf_v now later path w) as Hspec.
  destruct (parseSopsKeyPath path) as [keyPath|] eqn:Hparse;
    [|rewrite Hspec in Hfirst; discriminate].
  destruct (sopsClient (fs w)) as [client|] eqn:Hclient;
    [|rewrite Hspec in Hfirst; discriminate].
  rewrite Hmiss in Hspec. cbv zeta in Hspec.
  destruct (DecryptKey _ _ _ _ _) as [secret'|e];
    [|rewrite Hspec in Hfirst; discriminate].
  rewrite Hspec in Hfirst |- *. injection Hfirst as ->.
  rewrite readSecret_spec, cacheGet_spec, Hparse. simpl.
  rewrite lookup_insert_eq. simpl. rewrite Hfresh.
  repeat split. rewrite length_app. simpl. lia.
Qed.

(** X14: a read changes no cache entry but the one of its own path. *)
Theorem Read_leaves_other_entries
    (now later : Z) (path other : string) (buff : list ascii) (ofst fh : Z)
    (w : World) :
  other <> path ->
  secretsCache (fs (Read' now later path buff ofst fh w).2) !! other
  = secretsCache (fs w) !! other.
Proof.
  intros Hother.
  destruct (strings.HasPrefix path "/secrets/") eqn:Hprefix.
  - destruct (Read_world now later path buff ofst fh w Hprefix) as [-> _].
    rewrite readSecret_spec, cacheGet_spec. simpl.
    destruct (parseSopsKeyPath path) as [keyPath|]; [|done].
    destruct (sopsClient (fs w)) as [client|]; [|done].
    destruct (match secretsCache (fs w) !! path with
              | Some cached => _ | None => None end) as [v|]; [done|].
    destruct (DecryptKey _ _ _ _ _) as [secret|e]; [|done].
    simpl. by rewrite lookup_insert_ne.
  - rewrite Read_spec, Hprefix. reflexivity.
Qed.

(** X15: whatever the arguments, [Read] panics only for a negative
    offset; otherwise the buffer keeps its length and the return code is
    ENOENT (exactly when the path is not under "/secrets/") or EIO, both
    with the buffer untouched, or a byte count between 0 and the length of
    the buffer. *)
Theorem Read_return_code_and_buffer
    (now later : Z) (path : string) (buff : list ascii) (ofst fh : Z) (w : World) :
  match (Read' now later path buff ofst fh w).1 with
  | Panics => (ofst < 0)%Z /\ strings.HasPrefix path "/secrets/" = true
  | Returns (n, buff') =>
      length buff' = length buff
      /\ (n = ENOENT <-> strings.HasPrefix path "/secrets/" = false)
      /\ ((n = ENOENT \/ n = EIO) /\ buff' = buff
          \/ (0 <= n <= Z.of_nat (length buff))%Z)
  end.
Proof.
  rewrite Read_spec. cbv zeta.
  destruct (strings.HasPrefix path "/secrets/") eqn:Hprefix; simpl.
  2: { split; [done|]. split; [done|]. left. split; [by left|done]. }
  destruct (readSecret' now later path _) as [[secret|e] w1]; simpl.
  2: { split; [done|]. split; [split; discriminate|].
       left. split; [by right|done]. }
  destruct (_ <=? ofst)%Z eqn:Hend; simpl.
  { split; [done|]. split; [split; discriminate|]. right. lia. }
  destruct (ofst <? 0)%Z eqn:Hneg; simpl.
  { apply Z.ltb_lt in Hneg. by split. }
  split; [|split].
  - rewrite length_app, length_take, length_drop, length_drop. lia.
  - unfold ENOENT. split; [lia|discriminate].
  - right. lia.
Qed.

(** X16: without a client a read under "/secrets/" fails with EIO before
    the cache is looked at, even when the cache holds a fresh entry for
    the path; no call to [DecryptKey] is made. *)
Theorem Read_without_client_is_EIO
    (now later : Z) (path : string) (buff : list ascii) (ofst fh : Z) (w : World) :
  strings.HasPrefix path "/secrets/" = true ->
  sopsClient (fs w) = None ->
  (Read' now later path buff ofst fh w).1 = Returns (EIO, buff)
  /\ decryptCalls (Read' now later path buff ofst fh w).2 = decryptCalls w
  /\ fs (Read' now later path buff ofst fh w).2 = fs w.
Proof.
  intros Hprefix Hclient.
  rewrite Read_spec, Hprefix. cbv zeta.
  rewrite readSecret_spec, (parse_under_secrets path Hprefix). simpl.
  by rewrite Hclient.
Qed.

(** X17: a read does not look at the secret tree: with any other tree in
    place of the current one it returns the same result, makes the same
    calls to [DecryptKey] and leaves the same cache. *)
Theorem Read_does_not_depend_on_tree
    (now later : Z) (path : string) (buff : list ascii) (ofst fh : Z)
    (w : World) (tree : gmap string Value) :
  let out := Read' now later path buff ofst fh w in
  let out' := Read' now later path buff ofst fh (withTree tree w) in
  out'.1 = out.1
  /\ decryptCalls out'.2 = decryptCalls out.2
  /\ secretsCache (fs out'.2) = secretsCache (fs out.2).
Proof.
  cbv zeta. rewrite !Read_spec. cbv zeta.
  destruct (strings.HasPrefix path "/secrets/"); [|done].
  rewrite !readSecret_spec, !cacheGet_spec. simpl.
  destruct (parseSopsKeyPath path) as [keyPath|]; [|done].
  destruct (sopsClient (fs w)) as [client|]; [|done].
  destruct (match secretsCache (fs w) !! path with
            | Some cached => _ | None => None end) as [v|].
  - simpl. destruct (_ <=? ofst)%Z; [done|]. by destruct (ofst <? 0)%Z.
  - destruct (DecryptKey _ _ _ _ _) as [secret|e]; [|done].
    simpl. destruct (_ <=? ofst)%Z; [done|]. by destruct (ofst <? 0)%Z.
Qed.

End MoreReadFacts.

Lemma Read_hit_is_served_from_cache_witness :
  let w := sampleWorld {[ "/secrets/api/github" := mkCachedSecret "cached" 0 ]} in
  (readSecret steadyDocument sampleSprintf 5 6 "/secrets/api/github" w).1 = Ok "cached"
  /\ decryptCalls
       (Read steadyDocument sampleSprintf 5 6 "/secrets/api/github" [] 0 0 w).2 = []
  /\ fs (Read steadyDocument sampleSprintf 5 6 "/secrets/api/github" [] 0 0 w).2
     = fs w.
Proof.
  intros w.
  apply (Read_hit_is_served_from_cache steadyDocument sampleSprintf 5 6
           "/secrets/api/github" [] 0 0 w sampleClient (mkCachedSecret "cached" 0));
    [reflexivity|reflexivity|reflexivity|].
  vm_compute. reflexivity.
Defined.

Lemma read_after_read_within_TTL_witness :
  let w1 := (readSecret flakyDocument sampleSprintf 0 1 "/secrets/api/github"
               (mkWorld (mkSopsFS (Some sampleClient) "secrets.yaml" sampleTree ∅)
                        [("secrets.yaml", ["api"])] [])).2 in
  (readSecret flakyDocument sampleSprintf 2 3 "/secrets/api/github" w1).1 = Ok "token"
  /\ decryptCalls (readSecret flakyDocument sampleSprintf 2 3 "/secrets/api/github" w1).2
     = decryptCalls w1
  /\ length (decryptCalls w1) = 2%nat.
Proof.
  apply (read_after_read_within_TTL flakyDocument sampleSprintf 0 1 2 3
           "/secrets/api/github" "token");
    [reflexivity|reflexivity|].
  vm_compute. reflexivity.
Defined.

Lemma Read_leaves_other_entries_witness :
  let w := sampleWorld {[ "/secrets/api/github.txt" := mkCachedSecret "old" 0 ]} in
  secretsCache
    (fs (Read steadyDocument sampleSprintf 5 6 "/secrets/api/github" [] 0 0 w).2)
  !! "/secrets/api/github.txt"
  = secretsCache (fs w) !! "/secrets/api/github.txt".
Proof.
  intros w.
  apply (Read_leaves_other_entries steadyDocument sampleSprintf 5 6
           "/secrets/api/github" "/secrets/api/github.txt" [] 0 0 w).
  discriminate.
Defined.

Lemma Read_without_client_is_EIO_witness :
  let w := mkWorld (mkSopsFS None "secrets.yaml" sampleTree
                      {[ "/secrets/api/github" := mkCachedSecret "cached" 0 ]}) [] [] in
  (cacheGet 5 "/secrets/api/github" w).1 = Some "cached"
  /\ (Read steadyDocument sampleSprintf 5 6 "/secrets/api/github" [] 0 0 w).1
     = Returns (EIO, []).
Proof.
  intros w. split; [reflexivity|].
  apply (Read_without_client_is_EIO steadyDocument sampleSprintf 5 6
           "/secrets/api/github" [] 0 0 w); reflexivity.
Defined.

(* ===================================================================== *)
(** ** The decryption and the plaintext document                          *)
(* ===================================================================== *)

Section DecryptFacts.

Variable decryptDocument : nat -> string -> result Value.
Variable Sprintf_v : Value -> string.

Lemma extractKey_Ok (keyPath rest : list string) (cur : Value) (s : string) :
  extractKey Sprintf_v keyPath cur rest = Ok s
  <-> exists v, navigate cur rest = Some v
      /\ s = match v with VString t => t | _ => Sprintf_v v end.
Proof.
  revert cur. induction rest as [|k rest IH]; intros cur; simpl.
  - split.
    + intros H. exists cur. split; [done|]. by destruct cur; injection H as <-.
    + intros (v & [= <-] & ->). by destruct cur.
  - destruct cur as [m| |]; try (split; [done|by intros (? & ? & _)]).
    destruct (m !! k) as [v|]; [apply IH|].
    split; [done|by intros (? & ? & _)].
Qed.

Lemma extractKey_Err (keyPath rest : list string) (cur : Value) :
  navigate cur rest = None ->
  exists (p : list string) (k : string) (q : list string) (node : Value),
    rest = (p ++ k :: q)%list
    /\ navigate cur p = Some node
    /\ ((exists m, node = VMap m /\ m !! k = None
                   /\ extractKey Sprintf_v keyPath cur rest = Err (ErrKeyNotFound keyPath))
        \/ (isMap node = false
            /\ extractKey Sprintf_v keyPath cur rest = Err (ErrPathError k))).
Proof.
  revert cur. induction rest as [|k rest IH]; intros cur; simpl; [done|].
  destruct cur as [m| |].
  - destruct (m !! k) as [v|] eqn:Hk.
    + intros (p & k' & q & node & -> & Hnav & Hcase)%IH.
      exists (k :: p), k', q, node. split; [done|]. split; [|done].
      simpl. by rewrite Hk.
    + intros _. exists [], k, rest, (VMap m). split; [done|]. split; [done|].
      left. by exists m.
  - intros _. exists [], k, rest, (VString s). split; [done|]. split; [done|].
    by right.
  - intros _. exists [], k, rest, (VOther yaml). split; [done|]. split; [done|].
    by right.
Qed.

(** X18: [DecryptKey] returns a string exactly when the external
    decryption yields a document in which the key path resolves; the
    string is the leaf itself when the node is a string, and the "%v"
    rendering of the node otherwise (a mapping included). *)
Theorem DecryptKey_succeeds_iff_key_path_resolves
    (n : nat) (filePath : string) (keyPath : list string) (s : string) :
  DecryptKey decryptDocument Sprintf_v n filePath keyPath = Ok s
  <-> exists (root v : Value),
        decryptDocument n filePath = Ok root
        /\ navigate root keyPath = Some v
        /\ s = match v with VString t => t | _ => Sprintf_v v end.
Proof.
  unfold DecryptKey. destruct (decryptDocument n filePath) as [root|e].
  - rewrite extractKey_Ok. split.
    + intros (v & Hnav & ->). by exists root, v.
    + intros (root' & v & [= <-] & Hnav & ->). by exists v.
  - split; [done|]. by intros (? & ? & ? & _).
Qed.

(** X19: when the document is decrypted but the key path does not resolve
    in it, the error tells where the walk stopped: at the first segment
    [k] that is missing from the mapping reached so far the error is "key
    not found" with the whole key path, and at the first segment [k] that
    would have to be looked up in a node that is not a mapping it is "path
    error" at [k]. *)
Theorem DecryptKey_error_names_the_first_failure
    (n : nat) (filePath : string) (keyPath : list string) (root : Value) :
  decryptDocument n filePath = Ok root ->
  navigate root keyPath = None ->
  exists (p : list string) (k : string) (q : list string) (node : Value),
    keyPath = (p ++ k :: q)%list
    /\ navigate root p = Some node
    /\ ((exists m, node = VMap m /\ m !! k = None
                   /\ DecryptKey decryptDocument Sprintf_v n filePath keyPath
                      = Err (ErrKeyNotFound keyPath))
        \/ (isMap node = false
            /\ DecryptKey decryptDocument Sprintf_v n filePath keyPath
               = Err (ErrPathError k))).
Proof.
  intros Hdoc Hnav. unfold DecryptKey. rewrite Hdoc.
  by apply extractKey_Err.
Qed.

End DecryptFacts.

Lemma DecryptKey_error_names_the_first_failure_witness :
  navigate samplePlain ["api"; "github"; "token"] = None
  /\ exists (p : list string) (k : string) (q : list string) (node : Value),
       ["api"; "github"; "token"] = (p ++ k :: q)%list
       /\ navigate samplePlain p = Some node
       /\ ((exists m, node = VMap m /\ m !! k = None
                      /\ DecryptKey steadyDocument sampleSprintf 0 "secrets.yaml"
                                    ["api"; "github"; "token"]
                         = Err (ErrKeyNotFound ["api"; "github"; "token"]))
           \/ (isMap node = false
               /\ DecryptKey steadyDocument sampleSprintf 0 "secrets.yaml"
                             ["api"; "github"; "token"]
                  = Err (ErrPathError k))).
Proof.
  split; [reflexivity|].
  exact (DecryptKey_error_names_the_first_failure steadyDocument sampleSprintf
           0 "secrets.yaml" ["api"; "github"; "token"] samplePlain
           eq_refl eq_refl).
Defined.

(* ===================================================================== *)
(** ** Loading the structure                                              *)
(* ===================================================================== *)

Section StructureFacts.

Variable os_ReadFile : string -> result string.
Variable yaml_Unmarshal : string -> result (gmap string Value).

Local Abbreviation refresh' := (refreshSecretsStructure os_ReadFile yaml_Unmarshal).
Local Abbreviation NewSopsFS' := (NewSopsFS os_ReadFile yaml_Unmarshal).

(** X20: when the secrets file cannot be read or cannot be parsed,
    [refreshSecretsStructure] returns that error and keeps the filesystem
    object as it was, the previous tree included, and [NewSopsFS] on that
    file returns, instead of a filesystem, that error wrapped as "failed
    to load secrets structure: %w". *)
Theorem refresh_failure_keeps_the_tree
    (w : World) (e : error) (client : option SopsClient) :
  os_ReadFile (secretsWSLPath (fs w)) = Err e
  \/ (exists data, os_ReadFile (secretsWSLPath (fs w)) = Ok data
                   /\ yaml_Unmarshal data = Err e) ->
  (refresh' w).1 = Some e
  /\ fs (refresh' w).2 = fs w
  /\ decryptCalls (refresh' w).2 = decryptCalls w
  /\ NewSopsFS' client (secretsWSLPath (fs w))
     = Err (ErrWrapped "failed to load secrets structure: %w" e).
Proof.
  intros Hfail. unfold NewSopsFS, refreshSecretsStructure, GetSecretsStructure. run.
  destruct Hfail as [Hread|(data & Hread & Hparse)]; rewrite Hread; simpl;
    [done|]. by rewrite Hparse.
Qed.

(** X21: the world [NewSopsFS] returns has an empty cache, no call to
    [DecryptKey] behind it, the client and the path it was given, and a
    tree without the key "sops": every path whose key path starts with
    "sops" gets ENOENT from the four resolving callbacks. *)
Theorem NewSopsFS_initial_world
    (client : option SopsClient) (secretsPath : string) (w : World)
    (path : string) (keys : list string) (stat : Stat_t) (fh flags ofst : Z) :
  NewSopsFS' client secretsPath = Ok w ->
  secretsCache (fs w) = ∅
  /\ decryptCalls w = []
  /\ sopsClient (fs w) = client
  /\ secretsWSLPath (fs w) = secretsPath
  /\ secretsTree (fs w) !! "sops" = None
  /\ (parseSopsKeyPath path = Some ("sops" :: keys) ->
      (Getattr path stat fh w).1 = (ENOENT, stat)
      /\ (Open path flags w).1 = (ENOENT, 0%Z)
      /\ (Opendir path w).1 = (ENOENT, 0%Z)
      /\ (Readdir path ofst fh w).1.1 = ENOENT).
Proof.
  unfold NewSopsFS, refreshSecretsStructure, GetSecretsStructure. run.
  destruct (os_ReadFile secretsPath) as [data|e]; simpl; [|discriminate].
  destruct (yaml_Unmarshal data) as [sopsFile|e]; simpl; [|discriminate].
  intros [= <-]. simpl.
  do 4 (split; [reflexivity|]). split; [apply lookup_delete_eq|].
  intros Hparse.
  assert (String.eqb path "/" = false) as Hroot.
  { apply String.eqb_neq. intros ->. discriminate. }
  assert (String.eqb path "/secrets" = false) as Hsecrets.
  { apply String.eqb_neq. intros ->. discriminate. }
  assert (navigate (VMap (delete "sops" sopsFile)) ("sops" :: keys) = None) as Hnav
    by (simpl; by rewrite lookup_delete_eq).
  remember ("sops" :: keys) as ks eqn:Hks. clear Hks.
  unfold Getattr, Open, Opendir, Readdir. run.
  rewrite Hroot, Hsecrets, Hparse. simpl.
  repeat split;
    destruct (strings.HasPrefix path "/secrets/"); simpl; rewrite ?Hnav; reflexivity.
Qed.

End StructureFacts.

Lemma refresh_failure_keeps_the_tree_witness :
  let unreadable (filePath : string) : result string :=
    Err (ErrLibrary "failed to read SOPS file: no such file") in
  (refreshSecretsStructure unreadable sampleUnmarshal (sampleWorld ∅)).1
  = Some (ErrLibrary "failed to read SOPS file: no such file")
  /\ fs (refreshSecretsStructure unreadable sampleUnmarshal (sampleWorld ∅)).2
     = fs (sampleWorld ∅)
  /\ decryptCalls (refreshSecretsStructure unreadable sampleUnmarshal (sampleWorld ∅)).2
     = []
  /\ NewSopsFS unreadable sampleUnmarshal (Some sampleClient) "secrets.yaml"
     = Err (ErrWrapped "failed to load secrets structure: %w"
              (ErrLibrary "failed to read SOPS file: no such file")).
Proof.
  intros unreadable.
  apply (refresh_failure_keeps_the_tree unreadable sampleUnmarshal (sampleWorld ∅)
           (ErrLibrary "failed to read SOPS file: no such file") (Some sampleClient)).
  left. reflexivity.
Defined.

Lemma NewSopsFS_initial_world_witness :
  exists w : World,
    NewSopsFS sampleReadFile sampleUnmarshal (Some sampleClient) "secrets.yaml" = Ok w
    /\ secretsTree (fs w) !! "sops" = None
    /\ (Getattr "/secrets/sops/version" (mkStat 0 0) 0 w).1 = (ENOENT, mkStat 0 0).
Proof.
  eexists. split; [reflexivity|].
  match goal with
  | |- secretsTree (fs ?w) !! _ = _ /\ _ =>
      destruct (NewSopsFS_initial_world sampleReadFile sampleUnmarshal
                  (Some sampleClient) "secrets.yaml" w
                  "/secrets/sops/version" ["version"] (mkStat 0 0) 0 0 0 eq_refl)
        as (_ & _ & _ & _ & Hsops & Hpaths)
  end.
  split; [exact Hsops|]. exact (proj1 (Hpaths eq_refl)).
Defined.

(* ===================================================================== *)
(** ** The keyservice endpoint                                            *)
(* ===================================================================== *)

Section EndpointFacts.

Variable os_SetenvError : string -> string -> option error.
Variable grpc_DialError : string -> option error.

Local Abbreviation configure' := (configureSOPSKeyservice os_SetenvError).

(** The endpoint computed by [configureSOPSKeyservice] and the target
    dialled for it. *)
Lemma endpoint_target (addr : string) :
  strings.TrimPrefix
    (if negb (strings.HasPrefix addr "tcp://" || strings.HasPrefix addr "unix://")
     then "tcp://" +:+ addr else addr) "tcp://"
  = strings.TrimPrefix addr "tcp://".
Proof.
  destruct (strings.HasPrefix addr "tcp://") eqn:Htcp; [reflexivity|].
  destruct (strings.HasPrefix addr "unix://"); [reflexivity|]. simpl.
  rewrite TrimPrefix_append. unfold strings.TrimPrefix. by rewrite Htcp.
Qed.

(** X22: [configureSOPSKeyservice] leaves the environment as it was when
    [os.Setenv] fails; otherwise it sets SOPS_KEYSERVICE, and no other
    variable, to an endpoint that starts with "tcp://" or "unix://", the
    address itself when it already starts so; configuring again with that
    endpoint as the address changes nothing. *)
Theorem configureSOPSKeyservice_normalizes
    (addr : string) (environ : gmap string string) :
  let out := configure' addr environ in
  match out.1.1 with
  | Some e => out.1.2 = environ
  | None =>
      exists endpoint : string,
        out.1.2 !! "SOPS_KEYSERVICE" = Some endpoint
        /\ (strings.HasPrefix endpoint "tcp://" = true
            \/ strings.HasPrefix endpoint "unix://" = true)
        /\ (strings.HasPrefix addr "tcp://" = true
            \/ strings.HasPrefix addr "unix://" = true -> endpoint = addr)
        /\ (forall k, k <> "SOPS_KEYSERVICE" -> out.1.2 !! k = environ !! k)
        /\ (configure' endpoint out.1.2).1 = (None, out.1.2)
  end.
Proof.
  cbv zeta. unfold configureSOPSKeyservice.
  set (endpoint := if negb (strings.HasPrefix addr "tcp://"
                            || strings.HasPrefix addr "unix://")
                   then "tcp://" +:+ addr else addr).
  assert (strings.HasPrefix endpoint "tcp://" = true
          \/ strings.HasPrefix endpoint "unix://" = true) as Hscheme.
  { unfold endpoint.
    destruct (strings.HasPrefix addr "tcp://") eqn:Htcp; [by left|].
    destruct (strings.HasPrefix addr "unix://") eqn:Hunix; [by right|].
    left. apply HasPrefix_append. }
  destruct (os_SetenvError "SOPS_KEYSERVICE" endpoint) as [e|] eqn:Hset; simpl;
    [reflexivity|].
  exists endpoint. split; [apply lookup_insert_eq|]. split; [exact Hscheme|].
  split; [|split].
  - unfold endpoint. by intros [->| ->]; rewrite ?orb_true_r.
  - intros k Hk. by apply lookup_insert_ne.
  - assert (strings.HasPrefix endpoint "tcp://" || strings.HasPrefix endpoint "unix://"
            = true) as ->
      by (destruct Hscheme as [->| ->]; by rewrite ?orb_true_r).
    simpl. by rewrite Hset, insert_insert_eq.
Qed.

(** X23: after a successful [configureSOPSKeyservice], the target that
    the keyservice smoke test dials is the target that [NewSopsClient]
    dials for the same address, the address without a leading "tcp://";
    [NewSopsClient] returns a client exactly when that dial succeeds, and
    the client keeps the address as it was given. *)
Theorem smoke_test_dials_the_client_target
    (addr : string) (environ : gmap string string) (w : World) :
  (configure' addr environ).1.1 = None ->
  ksSmokeTarget (configure' addr environ).1.2 = strings.TrimPrefix addr "tcp://"
  /\ (NewSopsClient grpc_DialError addr w).1
     = match grpc_DialError (ksSmokeTarget (configure' addr environ).1.2) with
       | Some e => Err e
       | None => Ok (mkSopsClient addr)
       end.
Proof.
  unfold configureSOPSKeyservice.
  destruct (os_SetenvError _ _) as [e|]; simpl; [discriminate|]. intros _.
  assert (ksSmokeTarget
            (<["SOPS_KEYSERVICE" :=
                 if negb (strings.HasPrefix addr "tcp://"
                          || strings.HasPrefix addr "unix://")
                 then "tcp://" +:+ addr else addr]> environ)
          = strings.TrimPrefix addr "tcp://") as ->.
  { unfold ksSmokeTarget, os_Getenv. rewrite lookup_insert_eq. simpl.
    apply endpoint_target. }
  split; [reflexivity|].
  unfold NewSopsClient. run.
  by destruct (grpc_DialError (strings.TrimPrefix addr "tcp://")).
Qed.

End EndpointFacts.

Lemma smoke_test_dials_the_client_target_witness :
  let setenv (key value : string) : option error := None in
  let dial (target : string) : option error := None in
  ksSmokeTarget (configureSOPSKeyservice setenv "localhost:5000" ∅).1.2
  = "localhost:5000"
  /\ (NewSopsClient dial "localhost:5000" (sampleWorld ∅)).1
     = Ok (mkSopsClient "localhost:5000").
Proof.
  intros setenv dial.
  exact (smoke_test_dials_the_client_target setenv dial "localhost:5000" ∅
           (sampleWorld ∅) eq_refl).
Defined.

(* ===================================================================== *)
(** ** The self-test key path                                             *)
(* ===================================================================== *)

Lemma Value_size_child (m : gmap string Value) (k : string) (v : Value) :
  m !! k = Some v -> (Value_size v < Value_size (VMap m))%nat.
Proof.
  intros Hk. simpl. rewrite <- (insert_delete_id m k v Hk).
  rewrite map_fold_insert_L; [lia| |apply lookup_delete_eq].
  intros. lia.
Qed.

(** Induction on a value from its children. *)
Lemma Value_children_ind (P : Value -> Prop) :
  (forall v,
     (forall m k c, v = VMap m -> m !! k = Some c -> P c) -> P v) ->
  forall v, P v.
Proof.
  intros Hstep v.
  remember (Value_size v) as n eqn:Hn. revert v Hn.
  induction n as [n IH] using lt_wf_ind. intros v ->.
  apply Hstep. intros m k c -> Hk.
  apply (IH (Value_size c)); [by apply (Value_size_child m k)|reflexivity].
Qed.


(** The entries a run ranges over are the entries of the mapping. *)
Lemma range_entries_lookup (m : gmap string Value)
      (entries : list (string * Value)) (k : string) (c : Value) :
  entries ≡ₚ map_to_list m -> ((k, c) ∈ entries <-> m !! k = Some c).
Proof. intros Hperm. by rewrite Hperm, elem_of_map_to_list. Qed.

(** The loop over the children of a mapping, given what the calls on the
    children do. *)
Lemma findLeafPath_range_path (m : gmap string Value)
      (entries : list (string * Value)) (path : list string)
      (r : bool * list string) :
  (forall k c, (k, c) ∈ entries -> m !! k = Some c) ->
  (forall k c, m !! k = Some c ->
     forall path' r', findLeafPath c path' r' ->
       if r'.1
       then exists (suffix : list string) (leaf : Value),
              r'.2 = (path' ++ suffix)%list
              /\ navigate c suffix = Some leaf /\ isMap leaf = false
       else r'.2 = path') ->
  findLeafPath_range entries path r ->
  if r.1
  then exists (suffix : list string) (leaf : Value),
         r.2 = (path ++ suffix)%list
         /\ navigate (VMap m) suffix = Some leaf /\ isMap leaf = false
  else r.2 = path.
Proof.
  intros Hin Hchildren Hrange.
  induction Hrange as [path|key value rest path path' Hcall
                       |key value rest path path' r Hcall Hrest IH].
  - reflexivity.
  - pose proof (Hin key value (list_elem_of_here _ _)) as Hkey.
    destruct (Hchildren key value Hkey _ _ Hcall) as (suffix & leaf & Heq & Hnav & Hleaf).
    simpl in *. exists (key :: suffix), leaf. rewrite Heq, <- app_assoc.
    split; [done|]. simpl. by rewrite Hkey.
  - pose proof (Hin key value (list_elem_of_here _ _)) as Hkey.
    pose proof (Hchildren key value Hkey _ _ Hcall) as Hback. simpl in Hback.
    rewrite Hback, removelast_last in IH.
    apply IH. intros k c Hkc. apply Hin. by apply list_elem_of_further.
Qed.

(** The path after any run of [findLeafPath]: extended to a leaf below the
    node when the run returns true, as it was when it returns false. *)
Lemma findLeafPath_path (node : Value) :
  forall (path : list string) (r : bool * list string),
    findLeafPath node path r ->
    if r.1
    then exists (suffix : list string) (leaf : Value),
           r.2 = (path ++ suffix)%list
           /\ navigate node suffix = Some leaf /\ isMap leaf = false
    else r.2 = path.
Proof.
  induction node as [node IH] using Value_children_ind. intros path r Hrun.
  inversion Hrun as [node' path' Hleaf|m entries path' r' Hperm Hrange]; subst.
  - simpl. exists [], node. by rewrite app_nil_r.
  - apply (findLeafPath_range_path m entries); [| |done].
    + intros k c. by apply range_entries_lookup.
    + intros k c Hk. by apply (IH m k c).
Qed.

(** Any run of the loop returns true when one of the entries has a leaf
    below it. *)
Lemma findLeafPath_range_complete (entries : list (string * Value))
      (path : list string) (r : bool * list string) (k : string) (c : Value) :
  (k, c) ∈ entries ->
  (forall path' r', findLeafPath c path' r' -> r'.1 = true) ->
  findLeafPath_range entries path r -> r.1 = true.
Proof.
  intros Hin Hchild Hrange.
  induction Hrange as [path|key value rest path path' Hcall
                       |key value rest path path' r Hcall Hrest IH].
  - by apply elem_of_nil in Hin.
  - reflexivity.
  - apply elem_of_cons in Hin as [[= <- <-]|Hin]; [|by apply IH].
    by apply Hchild in Hcall.
Qed.

(** Every run of [findLeafPath] returns true when some key path leads to a
    leaf. *)
Lemma findLeafPath_complete (p : list string) :
  forall (node leaf : Value) (path : list string) (r : bool * list string),
    navigate node p = Some leaf -> isMap leaf = false ->
    findLeafPath node path r -> r.1 = true.
Proof.
  induction p as [|k p IH]; intros node leaf path r Hnav Hleaf Hrun.
  - injection Hnav as ->.
    inversion Hrun as [node' path' _|m entries path' r' _ _]; subst; [done|].
    discriminate.
  - simpl in Hnav. destruct node as [m| |]; try discriminate.
    destruct (m !! k) as [c|] eqn:Hk; [|discriminate].
    inversion Hrun as [node' path' Hmap|m' entries path' r' Hperm Hrange]; subst;
      [discriminate|].
    apply (findLeafPath_range_complete entries path r k c); [| |done].
    + by apply (range_entries_lookup m).
    + intros path' r' Hcall. by apply (IH c leaf path' r').
Qed.

(** Appending what is ranged over after a loop that returned false, or
    anything after a loop that returned true. *)
Lemma findLeafPath_range_app (l1 l2 : list (string * Value))
      (path : list string) (r1 : bool * list string) :
  findLeafPath_range l1 path r1 ->
  (r1.1 = true -> findLeafPath_range (l1 ++ l2) path r1)
  /\ (r1.1 = false ->
      forall r2, findLeafPath_range l2 r1.2 r2 ->
                 findLeafPath_range (l1 ++ l2) path r2).
Proof.
  intros Hrange.
  induction Hrange as [path|key value rest path path' Hcall
                       |key value rest path path' r Hcall Hrest IH].
  - split; [done|]. by intros _ r2 Hr2.
  - split; [|done]. intros _. by apply findLeafPath_range_return.
  - destruct IH as [IHtrue IHfalse]. split.
    + intros Hr. eapply findLeafPath_range_continue; [done|]. by apply IHtrue.
    + intros Hr r2 Hr2. eapply findLeafPath_range_continue; [done|].
      by apply IHfalse.
Qed.

(** The computed run is a run. *)
Lemma findLeafPathFold_run (node : Value) :
  forall path : list string, findLeafPath node path (findLeafPathFold node path).
Proof.
  induction node as [node IH] using Value_children_ind. intros path.
  destruct node as [m|s|yaml]; [|by constructor..].
  apply (findLeafPath_map m (reverse (map_to_list m))); [apply reverse_Permutation|].
  simpl. rewrite map_fold_foldr.
  assert (forall k c, (k, c) ∈ map_to_list m -> m !! k = Some c) as Hin
    by (intros k c; apply elem_of_map_to_list).
  induction (map_to_list m) as [|[k c] l IHl]; [constructor|].
  rewrite reverse_cons. simpl.
  specialize (IHl (fun k' c' H => Hin k' c' (list_elem_of_further _ _ _ H))).
  apply findLeafPath_range_app with (l2 := [(k, c)]) in IHl as [Htrue Hfalse].
  destruct (foldr _ (false, path) l) as [found path'] eqn:Hfold. simpl in *.
  destruct found; [by apply Htrue|].
  apply Hfalse; [done|].
  pose proof (IH m k c eq_refl (Hin k c (list_elem_of_here _ _)) (path' ++ [k])%list)
    as Hcall.
  destruct (findLeafPathFold c (path' ++ [k])) as [found path'']. simpl.
  destruct found.
  - by apply findLeafPath_range_return.
  - eapply findLeafPath_range_continue; [exact Hcall|]. constructor.
Qed.

(** Two runs on the same mapping that range over it in the two orders
    find different leaves. *)
Example findLeafPath_either_order :
  findLeafPath (VMap twoLeaves) [] (true, ["a"])
  /\ findLeafPath (VMap twoLeaves) [] (true, ["b"]).
Proof.
  assert ([("a", VString "x"); ("b", VString "y")] ≡ₚ map_to_list twoLeaves)
    as Hperm.
  { symmetry. apply map_to_list_to_map. simpl.
    apply NoDup_cons. split; [|apply NoDup_singleton].
    intros Hin%list_elem_of_singleton. discriminate. }
  split.
  - apply (findLeafPath_map _ [("a", VString "x"); ("b", VString "y")]);
      [exact Hperm|].
    apply findLeafPath_range_return. by constructor.
  - apply (findLeafPath_map _ [("b", VString "y"); ("a", VString "x")]);
      [by rewrite <- Hperm; apply perm_swap|].
    apply findLeafPath_range_return. by constructor.
Qed.

(** X24: [findLeafPath] always has a run, and every run, whatever the
    order in which it ranges over the maps, returns true exactly when some
    key path from the node leads to a node that is not a mapping; when it
    returns true the path it was given has been extended by a key path that
    leads to such a leaf, and when it returns false the path is as it was
    given. *)
Theorem findLeafPath_finds_a_leaf (node : Value) (path : list string) :
  (exists r, findLeafPath node path r)
  /\ forall r : bool * list string,
       findLeafPath node path r ->
       (r.1 = true
        <-> exists (p : list string) (leaf : Value),
              navigate node p = Some leaf /\ isMap leaf = false)
       /\ (r.1 = true ->
           exists (suffix : list string) (leaf : Value),
             r.2 = (path ++ suffix)%list
             /\ navigate node suffix = Some leaf /\ isMap leaf = false)
       /\ (r.1 = false -> r.2 = path).
Proof.
  split; [exists (findLeafPathFold node path); apply findLeafPathFold_run|].
  intros r Hrun. pose proof (findLeafPath_path node path r Hrun) as Hpath.
  destruct r.1 eqn:Hfound.
  - destruct Hpath as (suffix & leaf & Heq & Hnav & Hleaf).
    split; [|split]; [|by exists suffix, leaf|done].
    split; [|done]. intros _. by exists suffix, leaf.
  - split; [|split]; [|done|done].
    split; [done|]. intros (p & leaf & Hnav & Hleaf).
    by rewrite (findLeafPath_complete p node leaf path r Hnav Hleaf Hrun) in Hfound.
Qed.

(** The tree of the world that [NewSopsFS] returns. *)
Lemma NewSopsFS_tree
    (os_ReadFile : string -> result string)
    (yaml_Unmarshal : string -> result (gmap string Value))
    (client : option SopsClient) (secretsPath : string) (w : World) :
  NewSopsFS os_ReadFile yaml_Unmarshal client secretsPath = Ok w ->
  exists (data : string) (root : gmap string Value),
    os_ReadFile secretsPath = Ok data /\ yaml_Unmarshal data = Ok root
    /\ secretsTree (fs w) = delete "sops" root.
Proof.
  unfold NewSopsFS, refreshSecretsStructure, GetSecretsStructure. run.
  destruct (os_ReadFile secretsPath) as [data|e]; simpl; [|discriminate].
  destruct (yaml_Unmarshal data) as [root|e] eqn:Hparse; simpl; [|discriminate].
  intros [= <-]. by exists data, root.
Qed.

Section SelfTestFacts.

Variable os_ReadFile : string -> result string.
Variable yaml_Unmarshal : string -> result (gmap string Value).

Local Abbreviation findTestKeyPath' := (findTestKeyPath os_ReadFile yaml_Unmarshal).

(** What a run of [findTestKeyPath] returns and leaves. *)
Lemma findTestKeyPath_inv (secretsPath : string) (w : World)
      (out : option (list string) * World) :
  findTestKeyPath' secretsPath w out ->
  fs out.2 = fs w /\ decryptCalls out.2 = decryptCalls w
  /\ (out.1 = None
      \/ exists (data : string) (root : gmap string Value) (r : bool * list string),
           os_ReadFile secretsPath = Ok data /\ yaml_Unmarshal data = Ok root
           /\ findLeafPath (VMap (delete "sops" root)) [] r
           /\ r.1 = true /\ out.1 = Some r.2).
Proof.
  unfold findTestKeyPath.
  destruct (os_ReadFile secretsPath) as [data|e]; [|by intros ->; repeat split; left].
  destruct (yaml_Unmarshal data) as [root|e] eqn:Hparse;
    [|by intros ->; repeat split; left].
  intros (r & Hrun & ->).
  destruct r.1 eqn:Hfound; [|by repeat split; left].
  repeat split. right. by exists data, root, r.
Qed.

(** X25: a key path returned by any run of [findTestKeyPath] is not
    empty, does not start with "sops", and leads to a leaf of the parsed
    file without its "sops" key; the filesystem object and the calls made
    to [DecryptKey] are untouched; and in the filesystem that [NewSopsFS]
    builds from the same file the key path resolves to a file. *)
Theorem findTestKeyPath_names_a_file
    (secretsPath : string) (w : World) (out : option (list string) * World)
    (keys : list string) :
  findTestKeyPath' secretsPath w out ->
  out.1 = Some keys ->
  keys <> []
  /\ (forall rest, keys <> "sops" :: rest)
  /\ (exists (data : string) (root : gmap string Value) (leaf : Value),
        os_ReadFile secretsPath = Ok data /\ yaml_Unmarshal data = Ok root
        /\ navigate (VMap (delete "sops" root)) keys = Some leaf
        /\ isMap leaf = false)
  /\ fs out.2 = fs w
  /\ decryptCalls out.2 = decryptCalls w
  /\ (forall client w',
        NewSopsFS os_ReadFile yaml_Unmarshal client secretsPath = Ok w' ->
        classify (navigate (VMap (secretsTree (fs w'))) keys) = File).
Proof.
  intros (Hfs & Hcalls & [Hnone|Hsome])%findTestKeyPath_inv Hkeys; [congruence|].
  destruct Hsome as (data & root & r & Hread & Hparse & Hrun & Hfound & Hout).
  pose proof (findLeafPath_path _ _ _ Hrun) as Hpath. rewrite Hfound in Hpath.
  destruct Hpath as (suffix & leaf & Heq & Hnav & Hleaf).
  rewrite app_nil_l in Heq. assert (keys = suffix) as -> by congruence.
  split; [|split; [|split; [|split; [|split]]]]; try done.
  - intros ->. injection Hnav as <-. discriminate.
  - intros rest ->. simpl in Hnav. by rewrite lookup_delete_eq in Hnav.
  - by exists data, root, leaf.
  - intros client w' (data' & root' & Hread' & Hparse' & ->)%NewSopsFS_tree.
    rewrite Hread in Hread'. injection Hread' as <-.
    rewrite Hparse in Hparse'. injection Hparse' as <-.
    rewrite Hnav. unfold classify. by rewrite Hleaf.
Qed.

(** X26: [findTestKeyPath] always has a run, and every run, whatever the
    order in which the maps are ranged over, returns a key path exactly
    when the file can be read, parses, and has a leaf outside its "sops"
    key. *)
Theorem findTestKeyPath_succeeds_iff_leaf (secretsPath : string) (w : World) :
  (exists out, findTestKeyPath' secretsPath w out)
  /\ forall out : option (list string) * World,
       findTestKeyPath' secretsPath w out ->
       (is_Some out.1
        <-> exists (data : string) (root : gmap string Value)
                   (p : list string) (leaf : Value),
              os_ReadFile secretsPath = Ok data /\ yaml_Unmarshal data = Ok root
              /\ navigate (VMap (delete "sops" root)) p = Some leaf
              /\ isMap leaf = false).
Proof.
  unfold findTestKeyPath.
  destruct (os_ReadFile secretsPath) as [data|e] eqn:Hread.
  2: { split; [by eexists|]. intros out ->.
       split; [by intros [? ?]|by intros (? & ? & ? & ? & ? & _)]. }
  destruct (yaml_Unmarshal data) as [root|e] eqn:Hparse.
  2: { split; [by eexists|]. intros out ->. split; [by intros [? ?]|].
       intros (data' & ? & ? & ? & [= <-] & Hparse' & _). congruence. }
  cbv zeta. split.
  - eexists. exists (findLeafPathFold (VMap (delete "sops" root)) []).
    split; [apply findLeafPathFold_run|reflexivity].
  - intros out (r & Hrun & ->).
    pose proof (findLeafPath_path _ _ _ Hrun) as Hpath.
    destruct r.1 eqn:Hfound.
    + split; [|by eauto]. intros _.
      destruct Hpath as (suffix & leaf & _ & Hnav & Hleaf).
      by exists data, root, suffix, leaf.
    + split; [by intros [? ?]|].
      intros (data' & root' & p & leaf & [= <-] & Hparse' & Hnav & Hleaf).
      rewrite Hparse in Hparse'. injection Hparse' as <-.
      by rewrite (findLeafPath_complete p _ leaf [] r Hnav Hleaf Hrun) in Hfound.
Qed.

End SelfTestFacts.

Lemma findTestKeyPath_names_a_file_witness :
  let out : option (list string) * World :=
    (Some ["api"; "github"], sampleWorld ∅) in
  findTestKeyPath sampleReadFile sampleUnmarshal "secrets.yaml" (sampleWorld ∅) out
  /\ (forall rest, ["api"; "github"] <> "sops" :: rest)
  /\ (forall client w',
        NewSopsFS sampleReadFile sampleUnmarshal client "secrets.yaml" = Ok w' ->
        classify (navigate (VMap (secretsTree (fs w'))) ["api"; "github"]) = File).
Proof.
  intros out.
  assert (findTestKeyPath sampleReadFile sampleUnmarshal "secrets.yaml"
            (sampleWorld ∅) out) as Hrun.
  { unfold findTestKeyPath. simpl.
    exists (findLeafPathFold
              (VMap (delete "sops"
                       (<[ "sops" := VMap {[ "version" := VOther "3.8.1" ]} ]>
                          sampleTree))) []).
    split; [apply findLeafPathFold_run|vm_compute; reflexivity]. }
  split; [exact Hrun|].
  destruct (findTestKeyPath_names_a_file sampleReadFile sampleUnmarshal
              "secrets.yaml" (sampleWorld ∅) out ["api"; "github"] Hrun eq_refl)
    as (_ & Hsops & _ & _ & _ & Hfile).
  split; [exact Hsops|exact Hfile].
Defined.
